(** * Hex/binary column slicer: the decoding and slicing core

    A shallow embedding of [logic.py] (classification, bit-length
    detection, hex decoding, custom slicing, width-spec parsing) and of the
    pure parts of [main.py] ([get_bit_assignments], the row loop of
    [process_column]), followed by the properties of the specification.

    Python strings are modelled as lists of characters, a character being
    one of the 256 code points of [ascii] (the Latin-1 range of [str]).
    Python integers are [Z].  A call that can raise returns an [option] or
    an [outcome]. *)

From Stdlib Require Import Ascii String List ZArith Lia Bool Arith.
From Stdlib Require Import DecimalString DecimalZ DecimalPos.
Import ListNotations.

Open Scope Z_scope.

(** ** Python built-ins used by the program *)

Module Py.

Definition str := list ascii.

(** A literal. *)
Definition lit (s : string) : str := list_ascii_of_string s.

Definition code (c : ascii) : Z := Z.of_nat (nat_of_ascii c).

Definition len (s : str) : Z := Z.of_nat (length s).

(** [c * n]: the character repeated, the empty string when [n <= 0]. *)
Definition mul (c : ascii) (n : Z) : str := repeat c (Z.to_nat n).

(** [str.isspace] on one character: 0x09-0x0d, 0x1c-0x20, 0x85, 0xa0. *)
Definition isspace (c : ascii) : bool :=
  let n := code c in
  ((9 <=? n) && (n <=? 13)) || ((28 <=? n) && (n <=? 32))
  || (n =? 133) || (n =? 160).

Fixpoint lstrip (s : str) : str :=
  match s with
  | c :: r => if isspace c then lstrip r else s
  | [] => []
  end.

Definition rstrip (s : str) : str := rev (lstrip (rev s)).

(** [s.strip()] *)
Definition strip (s : str) : str := rstrip (lstrip s).

(** [str.lower] on one character: A-Z and the Latin-1 capitals 0xc0-0xde
    (0xd7, the multiplication sign, apart) move up by 32. *)
Definition lower_char (c : ascii) : ascii :=
  let n := code c in
  if ((65 <=? n) && (n <=? 90))
     || ((192 <=? n) && (n <=? 222) && negb (n =? 215))
  then ascii_of_nat (Z.to_nat (n + 32)) else c.

(** [s.lower()] *)
Definition lower (s : str) : str := map lower_char s.

(** [s.startswith("0x")] *)
Definition startswith_0x (s : str) : bool :=
  match s with
  | c0 :: c1 :: _ => Ascii.eqb c0 "0" && Ascii.eqb c1 "x"
  | _ => false
  end.

(** [c in t] for a one-character [c]. *)
Definition char_in (c : ascii) (t : str) : bool := existsb (Ascii.eqb c) t.

(** Index clamping of a slice bound: a negative bound counts from the
    end, and every bound is clipped to [0, len]. *)
Definition clamp (n : Z) (i : Z) : Z :=
  if i <? 0 then Z.max (i + n) 0 else Z.min i n.

(** [s[lo:hi]] *)
Definition slice (s : str) (lo hi : Z) : str :=
  let lo' := clamp (len s) lo in
  let hi' := clamp (len s) hi in
  firstn (Z.to_nat (hi' - lo')) (skipn (Z.to_nat lo') s).

(** [s[lo:]] *)
Definition slice_from (s : str) (lo : Z) : str :=
  skipn (Z.to_nat (clamp (len s) lo)) s.

Definition is_sign (c : ascii) : bool := Ascii.eqb c "+" || Ascii.eqb c "-".

(** [s.zfill(width)]: zeros on the left, after a leading sign if any;
    [s] itself when it is already [width] long or longer. *)
Definition zfill (s : str) (width : Z) : str :=
  if width <=? len s then s
  else
    let fill := mul "0" (width - len s) in
    match s with
    | c :: r => if is_sign c then c :: fill ++ r else fill ++ s
    | [] => fill
    end.

(** *** [int(s, base)] for the bases 10 and 16 *)

(** Value of a character as a digit; 37 for a character that is none. *)
Definition digit_value (c : ascii) : Z :=
  let n := code c in
  if (48 <=? n) && (n <=? 57) then n - 48
  else if (97 <=? n) && (n <=? 122) then n - 87
  else if (65 <=? n) && (n <=? 90) then n - 55
  else 37.

(** White space of the integer parser: 0x09-0x0d and the blank. *)
Definition c_isspace (c : ascii) : bool :=
  let n := code c in ((9 <=? n) && (n <=? 13)) || (n =? 32).

(** A string with a character above 0x7f is first rewritten: Unicode white
    space becomes a blank, and the text is cut at the first other
    character that is no decimal digit, a question mark marking the cut. *)
Fixpoint transform (s : str) : str :=
  match s with
  | [] => []
  | c :: r =>
      if code c <? 127 then c :: transform r
      else if isspace c then " "%char :: transform r
      else ["?"%char]
  end.

Definition to_ascii (s : str) : str :=
  if forallb (fun c => code c <? 128) s then s else transform s.

Fixpoint skip_space (s : str) : str :=
  match s with
  | c :: r => if c_isspace c then skip_space r else s
  | [] => []
  end.

(** The digit scan: digits and single underscores between them.  Returns
    the number of digits, their value and the unread rest; [None] on a
    doubled or a trailing underscore. *)
Fixpoint scan_digits (base : Z) (prev_us : bool) (ndigits : nat) (acc : Z)
    (s : str) {struct s} : option (nat * Z * str) :=
  match s with
  | c :: r =>
      if Ascii.eqb c "_" then
        if prev_us then None else scan_digits base true ndigits acc r
      else if digit_value c <? base then
        scan_digits base false (S ndigits) (acc * base + digit_value c) r
      else if prev_us then None else Some (ndigits, acc, s)
  | [] => if prev_us then None else Some (ndigits, acc, s)
  end.

(** After the sign, base 16 accepts [0x] or [0X] and one underscore. *)
Definition skip_prefix (base : Z) (s : str) : str :=
  match s with
  | c0 :: c1 :: r =>
      if Ascii.eqb c0 "0" && (base =? 16)
         && (Ascii.eqb c1 "x" || Ascii.eqb c1 "X")
      then match r with
           | c2 :: r' => if Ascii.eqb c2 "_" then r' else r
           | [] => r
           end
      else s
  | _ => s
  end.

Definition split_sign (s : str) : Z * str :=
  match s with
  | c :: r =>
      if Ascii.eqb c "+" then (1, r)
      else if Ascii.eqb c "-" then (-1, r)
      else (1, s)
  | [] => (1, s)
  end.

(** [int(s, base)]; [None] stands for [ValueError].  The interpreter's
    configurable bound on the number of decimal digits is left out. *)
Definition int (base : Z) (s : str) : option Z :=
  let '(sign, s1) := split_sign (skip_space (to_ascii s)) in
  let s2 := skip_prefix base s1 in
  match s2 with
  | "_"%char :: _ => None
  | _ =>
      match scan_digits base false 0 0 s2 with
      | None => None
      | Some (nd, v, rest) =>
          match nd with
          | O => None
          | S _ =>
              match skip_space rest with
              | [] => Some (sign * v)
              | _ :: _ => None
              end
          end
      end
  end.

(** *** [bin(n)] *)

Fixpoint bin_digits (p : positive) : str :=
  match p with
  | xH => ["1"%char]
  | xO q => bin_digits q ++ ["0"%char]
  | xI q => bin_digits q ++ ["1"%char]
  end.

Definition bin (n : Z) : str :=
  match n with
  | Z0 => lit "0b0"
  | Zpos p => lit "0b" ++ bin_digits p
  | Zneg p => lit "-0b" ++ bin_digits p
  end.

(** *** [s.split(",")] *)

Fixpoint split_comma_aux (cur : str) (s : str) : list str :=
  match s with
  | [] => [rev cur]
  | c :: r =>
      if Ascii.eqb c "," then rev cur :: split_comma_aux [] r
      else split_comma_aux (c :: cur) r
  end.

Definition split_comma (s : str) : list str := split_comma_aux [] s.

(** *** [range(0, stop, step)] *)

(** [None] stands for the [ValueError] of a zero step. *)
Definition range0 (stop step : Z) : option (list Z) :=
  if step =? 0 then None
  else
    let n :=
      if 0 <? step then (if 0 <? stop then (stop - 1) / step + 1 else 0)
      else (if stop <? 0 then (- stop - 1) / (- step) + 1 else 0) in
    Some (map (fun k => Z.of_nat k * step) (seq 0 (Z.to_nat n))).

(** [sum(l)] *)
Definition sum (l : list Z) : Z := fold_left Z.add l 0.

(** [str(n)] and the [{n}] of an f-string, for an integer: the decimal
    digits, after a minus sign for a negative one. *)
Definition str_of_int (n : Z) : str :=
  list_ascii_of_string (NilZero.string_of_int (Z.to_int n)).

(** [s.startswith(p)] *)
Fixpoint startswith (p s : str) : bool :=
  match p, s with
  | [], _ => true
  | _ :: _, [] => false
  | c :: p', d :: s' => Ascii.eqb c d && startswith p' s'
  end.

(** [p in s] for strings: [p] occurs in [s] as a substring. *)
Fixpoint contains (p s : str) : bool :=
  startswith p s
  || match s with
     | [] => false
     | _ :: s' => contains p s'
     end.

(** [enumerate(l)], counting from [i]. *)
Fixpoint enumerate_from {A : Type} (i : Z) (l : list A) : list (Z * A) :=
  match l with
  | [] => []
  | x :: r => (i, x) :: enumerate_from (i + 1) r
  end.

(** Exceptions the program raises itself, and the outcome of a call. *)
Inductive exn : Type := ValueError (msg : str).

Inductive outcome (A : Type) : Type :=
| Returns (a : A)
| Raises (e : exn).
Arguments Returns {A} a.
Arguments Raises {A} e.

End Py.

(** ** logic.py *)

Module Logic.
Import Py.

(** [hex_to_32bit_bin]: the [try] body, and the fallback of its
    [except Exception] when [int] raises. *)
Definition hex_to_32bit_bin (hex_val : str) : str :=
  let hex_str := lower (strip hex_val) in
  let hex_str := if startswith_0x hex_str then slice_from hex_str 2
                 else hex_str in
  let hex_str := zfill hex_str 8 in
  match int 16 hex_str with
  | Some n => zfill (slice_from (bin n) 2) 32
  | None => mul "0" 32
  end.

(** [is_likely_binary] *)
Definition is_likely_binary (value : str) : bool :=
  let val_str := lower (strip value) in
  let val_str := if startswith_0x val_str then slice_from val_str 2
                 else val_str in
  if negb (forallb (fun c => char_in c (lit "0123456789abcdef")) val_str)
  then false
  else if existsb (fun c => char_in c (lit "23456789abcdef")) val_str
  then false
  else len val_str >? 8.

(** [detect_bit_length] *)
Definition detect_bit_length (value : str) : Z :=
  let val_str := strip value in
  if is_likely_binary val_str then len val_str else 32.

(** One turn of the loop of [slice_bits_custom], on the pair of the list
    [slices] and the cursor [start]. *)
Definition slice_step (bin_str : str) (st : list str * Z) (bits : Z)
  : list str * Z :=
  let '(slices, start) := st in
  let slices :=
    if start >=? len bin_str then
      slices ++ [mul "0" bits]
    else if start + bits >? len bin_str then
      let remaining := len bin_str - start in
      let slice_val := slice_from bin_str start ++ mul "0" (bits - remaining) in
      slices ++ [slice_val]
    else
      let slice_val := zfill (slice bin_str start (start + bits)) bits in
      slices ++ [slice_val] in
  (slices, start + bits).

(** [slice_bits_custom] *)
Definition slice_bits_custom (bin_str : str) (bit_assignments : list Z)
  : list str :=
  fst (fold_left (slice_step bin_str) bit_assignments ([], 0)).

(** The list comprehension of [parse_bit_assignments]; [None] when an
    [int] call raises [ValueError]. *)
Fixpoint parse_parts (parts : list str) : option (list Z) :=
  match parts with
  | [] => Some []
  | p :: rest =>
      match strip p with
      | [] => parse_parts rest
      | _ :: _ =>
          match int 10 (strip p) with
          | None => None
          | Some n =>
              match parse_parts rest with
              | None => None
              | Some l => Some (n :: l)
              end
          end
      end
  end.

Definition invalid_assignments_msg : str :=
  lit "Invalid bit assignments. Please use comma-separated integers.".

(** [parse_bit_assignments] *)
Definition parse_bit_assignments (assignment_str : str)
  : outcome (list Z) :=
  let parts := split_comma (strip assignment_str) in
  match parse_parts parts with
  | Some l => Returns l
  | None => Raises (ValueError invalid_assignments_msg)
  end.

(** The name of field [i], of width [bits]: the f-string of
    [generate_column_names]. *)
Definition column_name (base_name : str) (i bits : Z) : str :=
  base_name ++ lit "_b" ++ str_of_int i ++ lit "_" ++ str_of_int bits
  ++ lit "bit".

(** [generate_column_names] *)
Definition generate_column_names (base_name : str)
    (bit_assignments : list Z) : list str :=
  map (fun '(i, bits) => column_name base_name i bits)
    (enumerate_from 0 bit_assignments).

(** [slice_bits]; it raises the [ValueError] of [range] on a zero step. *)
Definition slice_bits (bin_str : str) (slice_size : Z)
  : outcome (list str) :=
  let bit_length := len bin_str in
  match range0 bit_length slice_size with
  | None => Raises (ValueError (lit "range() arg 3 must not be zero"))
  | Some idx =>
      Returns (map (fun i => let end_pos := Z.min (i + slice_size) bit_length in
                             slice bin_str i end_pos) idx)
  end.

End Logic.

(** ** main.py *)

Module Main.
Import Py Logic.

(** [get_bit_assignments], on the state of the widgets it reads: the
    checked radio button, the value of the spin box, the text of the line
    edit, and on the result of [get_current_bit_length].  The custom branch
    returns [None] after its warning. *)
Definition get_bit_assignments (uniform_checked : bool) (slice_size : Z)
    (bit_length : Z) (text : str) : outcome (option (list Z)) :=
  if uniform_checked then
    match range0 bit_length slice_size with
    | None => Raises (ValueError (lit "range() arg 3 must not be zero"))
    | Some idx =>
        Returns (Some (map (fun i => let remaining := bit_length - i in
                                     Z.min slice_size remaining) idx))
    end
  else
    match parse_bit_assignments text with
    | Returns l => Returns (Some l)
    | Raises (ValueError _) => Returns None
    end.

(** The body of the row loop of [process_column] for one cell: [val] is
    [None] when [pd.notna(val)] is false. *)
Definition process_value (in_binary_columns : bool) (expected_bits : Z)
    (bit_assignments : list Z) (val : option str) : list str :=
  match val with
  | Some v =>
      let val_str := strip v in
      let bin_str :=
        if in_binary_columns then zfill val_str expected_bits
        else if is_likely_binary val_str then zfill val_str expected_bits
        else hex_to_32bit_bin val_str in
      slice_bits_custom bin_str bit_assignments
  | None => repeat [] (length bit_assignments)
  end.


(** The word [bin_str] that the row loop of [process_column] slices, for
    the trimmed text [val_str] of a present cell. *)
Definition bin_str_of (in_binary_columns : bool) (expected_bits : Z)
    (val_str : str) : str :=
  if in_binary_columns then zfill val_str expected_bits
  else if is_likely_binary val_str then zfill val_str expected_bits
  else hex_to_32bit_bin val_str.

(** The loop of [get_current_bit_length] over the cells of the column. *)
Fixpoint first_bit_length (in_binary_columns : bool)
    (cells : list (option str)) : Z :=
  match cells with
  | [] => 32
  | None :: rest => first_bit_length in_binary_columns rest
  | Some val :: _ =>
      let val_str := strip val in
      if in_binary_columns then len val_str
      else if is_likely_binary val_str then len val_str
      else 32
  end.

(** [get_current_bit_length]: [column] is [None] when no table is loaded
    or no column is selected. *)
Definition get_current_bit_length (in_binary_columns : bool)
    (column : option (list (option str))) : Z :=
  match column with
  | None => 32
  | Some cells => first_bit_length in_binary_columns cells
  end.

(** The loop of [on_column_changed], which leaves at the first present
    cell, on the variable [bit_length]. *)
Fixpoint changed_loop (in_binary_columns : bool) (bit_length : Z)
    (cells : list (option str)) : Z :=
  match cells with
  | [] => bit_length
  | None :: rest => changed_loop in_binary_columns bit_length rest
  | Some val :: _ =>
      let val_str := strip val in
      if in_binary_columns then len val_str
      else if is_likely_binary val_str then len val_str
      else 32
  end.

(** [on_column_changed]: the bit length it shows and the maximum it sets
    on the spin box; [None] when it returns at once. *)
Definition on_column_changed (in_binary_columns : bool)
    (column : option (list (option str))) : option (Z * Z) :=
  match column with
  | None => None
  | Some cells =>
      let bit_length := changed_loop in_binary_columns 32 cells in
      Some (bit_length, Z.max (bit_length - 1) 1)
  end.

(** The test of the set comprehension of [load_file]: the column name
    holds [_b] and holds [_bit]. *)
Definition is_binary_column (col : str) : bool :=
  contains (lit "_b") col && contains (lit "_bit") col.

(** [binary_columns] as [load_file] sets it: the set, as the list of its
    members in the order of the columns. *)
Definition binary_columns (columns : list str) : list str :=
  filter is_binary_column columns.

End Main.

(** ** The specification's own words *)

Module Spec.
Import Py.

(** A bit: one of the characters 0 and 1; a bit word: a string of bits. *)
Definition is_bit (c : ascii) : bool := Ascii.eqb c "0" || Ascii.eqb c "1".

Definition is_bit_word (s : str) : bool := forallb is_bit s.

(** Section 4.5, one field: the cursor [start], the width [w]. *)
Definition field (start : nat) (bit_word : str) (w : nat) : str :=
  if (length bit_word <=? start)%nat then repeat "0"%char w
  else if (length bit_word <? start + w)%nat then
    skipn start bit_word
    ++ repeat "0"%char (w - length (skipn start bit_word))
  else firstn w (skipn start bit_word).

(** Section 4.5, the Slicer: the cursor moves on by each width in turn. *)
Fixpoint slicer (start : nat) (bit_word : str) (widths : list nat)
  : list str :=
  match widths with
  | [] => []
  | w :: rest => field start bit_word w :: slicer (start + w) bit_word rest
  end.

(** Section 4.1, step 1: trim, lower-case, strip a leading 0x. *)
Definition normalise (token : str) : str :=
  match lower (strip token) with
  | "0"%char :: "x"%char :: rest => rest
  | t => t
  end.

Inductive Classification : Type := Hex | Binary | Invalid.

(** The character classes 0-9a-f and 2-9a-f. *)
Definition is_hex_char (c : ascii) : bool :=
  ((code "0" <=? code c) && (code c <=? code "9"))
  || ((code "a" <=? code c) && (code c <=? code "f")).

Definition is_high_digit (c : ascii) : bool :=
  ((code "2" <=? code c) && (code c <=? code "9"))
  || ((code "a" <=? code c) && (code c <=? code "f")).

(** Section 4.1, the Classifier. *)
Definition classify (token : str) : Classification :=
  let t := normalise token in
  if existsb (fun c => negb (is_hex_char c)) t then Invalid
  else if existsb is_high_digit t then Hex
  else if len t <=? 8 then Hex
  else Binary.

(** The digit string handed to the base-16 parser by section 4.3:
    normalised, then left-padded to eight digits. *)
Definition padded (token : str) : str := zfill (normalise token) 8.

(** The binary expansion of a value that is not negative. *)
Definition binary (v : Z) : str :=
  match v with
  | Zpos p => bin_digits p
  | _ => ["0"%char]
  end.

(** The value of a string of hexadecimal digits. *)
Definition hex_value (s : str) : Z :=
  fold_left (fun a c => a * 16 + digit_value c) s 0.




(** The value of a bit word, most significant bit first. *)
Definition bits_value (s : str) : Z :=
  fold_left (fun a c => 2 * a + (if Ascii.eqb c "1" then 1 else 0)) s 0.

End Spec.

Import Py Logic Main Spec.

(** ** Strings and slices *)

Section Slices.

Lemma len_nonneg (s : str) : 0 <= len s.
Proof. unfold len. lia. Qed.

Lemma len_app (s t : str) : len (s ++ t) = len s + len t.
Proof. unfold len. rewrite length_app. lia. Qed.

Lemma mul_of_nat (c : ascii) (n : nat) : mul c (Z.of_nat n) = repeat c n.
Proof. unfold mul. now rewrite Nat2Z.id. Qed.

Lemma mul_nonpos (c : ascii) (n : Z) : n <= 0 -> mul c n = [].
Proof.
  intros Hn. unfold mul. replace (Z.to_nat n) with O by lia. reflexivity.
Qed.

Lemma length_mul (c : ascii) (n : Z) : 0 <= n -> len (mul c n) = n.
Proof. intros Hn. unfold len, mul. rewrite repeat_length. lia. Qed.

Lemma clamp_inside (n i : Z) : 0 <= i <= n -> clamp n i = i.
Proof.
  intros Hi. unfold clamp.
  destruct (Z.ltb_spec i 0); lia.
Qed.

Lemma slice_from_of_nat (s : str) (k : nat) :
  (k <= length s)%nat -> slice_from s (Z.of_nat k) = skipn k s.
Proof.
  intros Hk. unfold slice_from.
  rewrite clamp_inside by (unfold len; lia).
  now rewrite Nat2Z.id.
Qed.

Lemma slice_of_nat (s : str) (k n : nat) :
  (k + n <= length s)%nat ->
  slice s (Z.of_nat k) (Z.of_nat k + Z.of_nat n) = firstn n (skipn k s).
Proof.
  intros Hk. unfold slice.
  rewrite !clamp_inside by (unfold len; lia).
  rewrite Nat2Z.id.
  replace (Z.to_nat (Z.of_nat k + Z.of_nat n - Z.of_nat k)) with n by lia.
  reflexivity.
Qed.

Lemma zfill_long (s : str) (width : Z) : width <= len s -> zfill s width = s.
Proof.
  intros Hw. unfold zfill.
  destruct (Z.leb_spec width (len s)); [reflexivity | lia].
Qed.

End Slices.

(** ** The Slicer *)

Section Slicer.

Variable bin_str : str.



(** With the cursor and the width natural numbers, a turn of the loop
    produces the field of the specification. *)
Lemma slice_step_field (slices : list str) (k n : nat) :
  slice_step bin_str (slices, Z.of_nat k) (Z.of_nat n)
  = (slices ++ [field k bin_str n], Z.of_nat (k + n)).
Proof.
  unfold slice_step, field, len.
  replace (Z.of_nat k + Z.of_nat n) with (Z.of_nat (k + n)) by lia.
  f_equal.
  destruct (Z.geb_spec (Z.of_nat k) (Z.of_nat (length bin_str))) as [Hge | Hlt];
    destruct (Nat.leb_spec (length bin_str) k) as [Hle | Hgt]; try lia.
  - now rewrite mul_of_nat.
  - destruct (Z.gtb_spec (Z.of_nat (k + n)) (Z.of_nat (length bin_str)));
      destruct (Nat.ltb_spec (length bin_str) (k + n)); try lia.
    + rewrite slice_from_of_nat by lia.
      rewrite length_skipn.
      replace (Z.of_nat n - (Z.of_nat (length bin_str) - Z.of_nat k))
        with (Z.of_nat (n - (length bin_str - k))) by lia.
      now rewrite mul_of_nat.
    + replace (Z.of_nat (k + n)) with (Z.of_nat k + Z.of_nat n) by lia.
      rewrite slice_of_nat by lia.
      rewrite zfill_long; [reflexivity |]. unfold len.
      rewrite length_firstn, length_skipn. lia.
Qed.

Lemma fold_slice_step_slicer (ws : list nat) (slices : list str) (k : nat) :
  fst (fold_left (slice_step bin_str) (map Z.of_nat ws) (slices, Z.of_nat k))
  = slices ++ slicer k bin_str ws.
Proof.
  revert slices k. induction ws as [| w ws IH]; intros slices k;
    cbn [map fold_left slicer fst].
  - now rewrite app_nil_r.
  - rewrite slice_step_field, IH, <- app_assoc. reflexivity.
Qed.

End Slicer.

Lemma slice_bits_custom_slicer (bin_str : str) (ws : list nat) :
  slice_bits_custom bin_str (map Z.of_nat ws) = slicer 0 bin_str ws.
Proof.
  unfold slice_bits_custom.
  exact (fold_slice_step_slicer bin_str ws [] 0).
Qed.

Lemma nonneg_widths (ws : list Z) :
  Forall (fun w => 0 <= w) ws -> map Z.of_nat (map Z.to_nat ws) = ws.
Proof.
  induction 1 as [| w ws Hw _ IH]; cbn [map]; [reflexivity |].
  rewrite IH, Z2Nat.id by assumption. reflexivity.
Qed.

Lemma length_field (k : nat) (s : str) (w : nat) : length (field k s w) = w.
Proof.
  unfold field.
  destruct (Nat.leb_spec (length s) k).
  - apply repeat_length.
  - destruct (Nat.ltb_spec (length s) (k + w)).
    + rewrite length_app, repeat_length, length_skipn. lia.
    + rewrite length_firstn, length_skipn. lia.
Qed.

Lemma slicer_lengths (s : str) (ws : list nat) (k : nat) :
  Forall2 (fun f w => length f = w) (slicer k s ws) ws.
Proof.
  revert k. induction ws as [| w ws IH]; intros k; cbn [slicer];
    constructor; [apply length_field | apply IH].
Qed.

(** Concatenating the fields gives back the part of the word from the
    cursor on, when the widths add up to what is left of it. *)
Lemma concat_slicer (s : str) (ws : list nat) (k : nat) :
  (k + list_sum ws = length s)%nat ->
  concat (slicer k s ws) = skipn k s.
Proof.
  revert k. induction ws as [| w ws IH]; intros k Hsum;
    cbn [slicer concat]; simpl list_sum in Hsum.
  - rewrite skipn_all2 by lia. reflexivity.
  - rewrite IH by lia. unfold field.
    destruct (Nat.leb_spec (length s) k).
    + assert (w = O) by lia. subst w. cbn [repeat app].
      now rewrite Nat.add_0_r.
    + destruct (Nat.ltb_spec (length s) (k + w)); [lia |].
      rewrite Nat.add_comm, <- skipn_skipn.
      apply firstn_skipn.
Qed.

(** ** The Classifier *)

Section Classifier.

Ltac by_cases_on c :=
  destruct c as [[] [] [] [] [] [] [] []]; vm_compute; reflexivity.

Lemma char_in_hex (c : ascii) :
  char_in c (lit "0123456789abcdef") = is_hex_char c.
Proof. by_cases_on c. Qed.

Lemma char_in_high (c : ascii) :
  char_in c (lit "23456789abcdef") = is_high_digit c.
Proof. by_cases_on c. Qed.

Lemma is_bit_hex (c : ascii) :
  is_bit c = is_hex_char c && negb (is_high_digit c).
Proof. by_cases_on c. Qed.

(** The prefix handling of the code is the normalisation of the
    specification. *)
Lemma strip_prefix_normalise (value : str) :
  (let val_str := lower (strip value) in
   if startswith_0x val_str then slice_from val_str 2 else val_str)
  = normalise value.
Proof.
  unfold normalise. cbv zeta.
  destruct (lower (strip value)) as [| c0 [| c1 r]].
  - reflexivity.
  - destruct c0 as [[] [] [] [] [] [] [] []]; reflexivity.
  - destruct c0 as [[] [] [] [] [] [] [] []]; try reflexivity.
    destruct c1 as [[] [] [] [] [] [] [] []]; try reflexivity.
    cbn [startswith_0x Ascii.eqb Bool.eqb andb].
    unfold slice_from. rewrite clamp_inside.
    + reflexivity.
    + unfold len. cbn [length]. lia.
Qed.

Lemma forallb_hex_not_high (t : str) :
  forallb is_hex_char t && negb (existsb is_high_digit t) = is_bit_word t.
Proof.
  unfold is_bit_word.
  induction t as [| c t IH]; cbn [forallb existsb]; [reflexivity |].
  rewrite <- IH, is_bit_hex.
  destruct (is_hex_char c), (is_high_digit c), (forallb is_hex_char t),
    (existsb is_high_digit t); reflexivity.
Qed.

Lemma forallb_pointwise {A : Type} (f g : A -> bool) (l : list A) :
  (forall x, f x = g x) -> forallb f l = forallb g l.
Proof.
  intros Hfg. induction l as [| x l IH]; cbn [forallb]; [reflexivity |].
  now rewrite Hfg, IH.
Qed.

Lemma existsb_pointwise {A : Type} (f g : A -> bool) (l : list A) :
  (forall x, f x = g x) -> existsb f l = existsb g l.
Proof.
  intros Hfg. induction l as [| x l IH]; cbn [existsb]; [reflexivity |].
  now rewrite Hfg, IH.
Qed.

Lemma is_likely_binary_normalise (value : str) :
  is_likely_binary value
  = is_bit_word (normalise value) && (8 <? len (normalise value)).
Proof.
  unfold is_likely_binary.
  rewrite strip_prefix_normalise.
  set (t := normalise value).
  rewrite <- forallb_hex_not_high.
  rewrite (forallb_pointwise _ _ t char_in_hex).
  rewrite (existsb_pointwise _ _ t char_in_high).
  rewrite Z.gtb_ltb.
  destruct (forallb is_hex_char t); cbn [negb andb]; [| reflexivity].
  destruct (existsb is_high_digit t); reflexivity.
Qed.

Lemma existsb_negb_forallb {A : Type} (f : A -> bool) (l : list A) :
  existsb (fun x => negb (f x)) l = negb (forallb f l).
Proof.
  induction l as [| x l IH]; cbn [existsb forallb]; [reflexivity |].
  rewrite IH. now destruct (f x).
Qed.

Lemma classify_binary (token : str) :
  classify token = Binary <-> is_likely_binary token = true.
Proof.
  rewrite is_likely_binary_normalise. unfold classify. cbv zeta.
  set (t := normalise token).
  rewrite <- forallb_hex_not_high, existsb_negb_forallb.
  destruct (forallb is_hex_char t); cbn [negb andb];
    [| split; discriminate].
  destruct (existsb is_high_digit t); cbn [negb andb];
    [split; discriminate |].
  destruct (Z.leb_spec (len t) 8), (Z.ltb_spec 8 (len t)); try lia;
    split; (reflexivity || discriminate).
Qed.

End Classifier.

(** ** Stripping white space *)

Section Strip.

Lemma lstrip_spaces (w s : str) :
  forallb isspace w = true -> lstrip (w ++ s) = lstrip s.
Proof.
  induction w as [| c w IH]; cbn [forallb app lstrip]; [reflexivity |].
  intros [Hc Hw]%andb_prop. rewrite Hc. auto.
Qed.

Lemma lstrip_decomp (s : str) :
  exists w, s = w ++ lstrip s /\ forallb isspace w = true.
Proof.
  induction s as [| c s (w & Hs & Hw)]; cbn [lstrip].
  - exists []. split; reflexivity.
  - destruct (isspace c) eqn:Hc.
    + exists (c :: w). cbn [app forallb]. rewrite Hc, Hw.
      split; [now f_equal | reflexivity].
    + exists []. split; reflexivity.
Qed.

Lemma lstrip_head (s r : str) (c : ascii) :
  lstrip s = c :: r -> isspace c = false.
Proof.
  induction s as [| d s IH]; cbn [lstrip]; [discriminate |].
  destruct (isspace d) eqn:Hd; [assumption |].
  intros [= -> _]. assumption.
Qed.

Lemma lstrip_nil (s : str) : lstrip s = [] -> forallb isspace s = true.
Proof.
  induction s as [| c s IH]; cbn [lstrip forallb]; [reflexivity |].
  destruct (isspace c); [assumption | discriminate].
Qed.

Lemma lstrip_all_spaces (s : str) : forallb isspace s = true -> lstrip s = [].
Proof.
  intros Hs. rewrite <- (app_nil_r s). now rewrite lstrip_spaces.
Qed.

Lemma lstrip_idem (s : str) : lstrip (lstrip s) = lstrip s.
Proof.
  destruct (lstrip s) as [| c r] eqn:Hs; [reflexivity |].
  cbn [lstrip]. now rewrite (lstrip_head _ _ _ Hs).
Qed.

Lemma lstrip_app (s t : str) :
  lstrip s <> [] -> lstrip (s ++ t) = lstrip s ++ t.
Proof.
  induction s as [| c s IH]; cbn [lstrip app]; [congruence |].
  destruct (isspace c); [assumption | reflexivity].
Qed.

Lemma forallb_rev {A : Type} (f : A -> bool) (l : list A) :
  forallb f (rev l) = forallb f l.
Proof.
  induction l as [| x l IH]; cbn [rev forallb]; [reflexivity |].
  rewrite forallb_app, IH. cbn [forallb].
  destruct (f x), (forallb f l); reflexivity.
Qed.

Lemma strip_spaces_left (w s : str) :
  forallb isspace w = true -> strip (w ++ s) = strip s.
Proof. intros Hw. unfold strip. now rewrite lstrip_spaces. Qed.

Lemma strip_spaces_right (s w : str) :
  forallb isspace w = true -> strip (s ++ w) = strip s.
Proof.
  intros Hw. unfold strip, rstrip.
  destruct (lstrip s) as [| c r] eqn:Hs.
  - apply lstrip_nil in Hs.
    rewrite (lstrip_all_spaces (s ++ w)); [reflexivity |].
    rewrite forallb_app, Hs, Hw. reflexivity.
  - rewrite lstrip_app by congruence. rewrite Hs, rev_app_distr.
    rewrite lstrip_spaces; [reflexivity |]. now rewrite forallb_rev.
Qed.

Lemma strip_decomp (s : str) :
  exists w1 w2, s = w1 ++ strip s ++ w2
    /\ forallb isspace w1 = true /\ forallb isspace w2 = true.
Proof.
  destruct (lstrip_decomp s) as (w1 & Hs & Hw1).
  destruct (lstrip_decomp (rev (lstrip s))) as (w2 & Ht & Hw2).
  exists w1, (rev w2). repeat split.
  - unfold strip, rstrip. rewrite <- rev_app_distr, <- Ht, rev_involutive.
    exact Hs.
  - exact Hw1.
  - now rewrite forallb_rev.
Qed.

Lemma strip_idem (s : str) : strip (strip s) = strip s.
Proof.
  destruct (strip_decomp s) as (w1 & w2 & Hs & Hw1 & Hw2).
  rewrite Hs at 2.
  now rewrite strip_spaces_left, strip_spaces_right.
Qed.

Lemma lstrip_no_space (s : str) :
  forallb (fun c => negb (isspace c)) s = true -> lstrip s = s.
Proof.
  destruct s as [| c s]; cbn [forallb lstrip]; [reflexivity |].
  intros [Hc _]%andb_prop. now destruct (isspace c).
Qed.

Lemma strip_no_space (s : str) :
  forallb (fun c => negb (isspace c)) s = true -> strip s = s.
Proof.
  intros Hs. unfold strip, rstrip.
  rewrite (lstrip_no_space s Hs).
  rewrite lstrip_no_space by now rewrite forallb_rev.
  apply rev_involutive.
Qed.

Lemma normalise_strip (s : str) : normalise (strip s) = normalise s.
Proof. unfold normalise. now rewrite strip_idem. Qed.

Lemma is_likely_binary_strip (s : str) :
  is_likely_binary (strip s) = is_likely_binary s.
Proof. now rewrite !is_likely_binary_normalise, normalise_strip. Qed.

End Strip.

(** ** The integer parser *)

Section IntParser.

Ltac by_cases_on c :=
  destruct c as [[] [] [] [] [] [] [] []]; vm_compute; intuition congruence.












(** What a hexadecimal digit is to the parser. *)
Lemma hex_char_facts (c : ascii) :
  is_hex_char c = true ->
  (code c <? 128) = true /\ c_isspace c = false /\ is_sign c = false
  /\ Ascii.eqb c "_" = false /\ Ascii.eqb c "x" = false
  /\ Ascii.eqb c "X" = false /\ (digit_value c <? 16) = true
  /\ 0 <= digit_value c.
Proof. by_cases_on c. Qed.

Lemma scan_digits_hex (s : str) :
  forallb is_hex_char s = true ->
  forall prev_us nd acc, (s = [] -> prev_us = false) ->
    scan_digits 16 prev_us nd acc s
    = Some ((nd + length s)%nat,
            fold_left (fun a c => a * 16 + digit_value c) s acc, []).
Proof.
  induction s as [| c s IH]; cbn [forallb]; intros Hs prev_us nd acc Hp.
  - rewrite (Hp eq_refl). cbn [scan_digits length fold_left].
    now rewrite Nat.add_0_r.
  - apply andb_prop in Hs as [Hc Hs].
    destruct (hex_char_facts c Hc) as (_ & _ & _ & Hus & _ & _ & Hd & _).
    cbn [scan_digits]. rewrite Hus, Hd.
    rewrite (IH Hs) by reflexivity.
    cbn [length fold_left]. now rewrite Nat.add_succ_r.
Qed.

Lemma fold_hex_nonneg (s : str) (acc : Z) :
  forallb is_hex_char s = true -> 0 <= acc ->
  0 <= fold_left (fun a c => a * 16 + digit_value c) s acc.
Proof.
  revert acc. induction s as [| c s IH]; cbn [forallb fold_left];
    intros acc Hs Hacc; [assumption |].
  apply andb_prop in Hs as [Hc Hs].
  destruct (hex_char_facts c Hc) as (_ & _ & _ & _ & _ & _ & _ & Hd).
  apply IH; [assumption | lia].
Qed.

(** A string of hexadecimal digits that is not empty is accepted, with
    the value of its digits. *)
Lemma int_hex_digits (s : str) :
  forallb is_hex_char s = true -> s <> [] ->
  int 16 s = Some (hex_value s).
Proof.
  intros Hs Hne. unfold int, to_ascii.
  assert (Hlow : forallb (fun c => code c <? 128) s = true).
  { apply forallb_forall. intros c Hc.
    apply (hex_char_facts c). rewrite forallb_forall in Hs. auto. }
  rewrite Hlow.
  destruct s as [| c0 r]; [congruence |].
  pose proof Hs as Hs0. cbn [forallb] in Hs0.
  apply andb_prop in Hs0 as [Hc0 Hr].
  destruct (hex_char_facts c0 Hc0) as (_ & Hsp & Hsg & Hus & _ & _ & _ & _).
  cbn [skip_space]. rewrite Hsp.
  apply orb_false_elim in Hsg as [Hplus Hminus].
  unfold split_sign. rewrite Hplus, Hminus.
  assert (Hpre : skip_prefix 16 (c0 :: r) = c0 :: r).
  { destruct r as [| c1 r']; [reflexivity |].
    cbn [forallb] in Hr. apply andb_prop in Hr as [Hc1 _].
    destruct (hex_char_facts c1 Hc1) as (_ & _ & _ & _ & Hx & HX & _ & _).
    unfold skip_prefix. rewrite Hx, HX. cbn [orb].
    now rewrite andb_false_r. }
  rewrite Hpre.
  rewrite (scan_digits_hex (c0 :: r) Hs) by discriminate.
  assert (Hmatch : forall (A : Type) (a b : A),
             match c0 :: r with
             | "_"%char :: _ => a
             | _ => b
             end = b).
  { intros A a b. destruct c0 as [[] [] [] [] [] [] [] []];
      try reflexivity. discriminate Hus. }
  rewrite Hmatch. cbn [length Nat.add skip_space].
  unfold hex_value. f_equal. lia.
Qed.

End IntParser.

(** ** Binary expansions and zero filling *)

Section Binary.

Lemma zfill_no_sign (s : str) (width : Z) :
  match s with c :: _ => is_sign c = false | [] => True end ->
  zfill s width = mul "0" (width - len s) ++ s.
Proof.
  intros Hs. unfold zfill.
  destruct (Z.leb_spec width (len s)).
  - now rewrite mul_nonpos by lia.
  - destruct s as [| c r]; [now rewrite app_nil_r |].
    now rewrite Hs.
Qed.

Lemma bit_no_sign (s : str) :
  is_bit_word s = true ->
  match s with c :: _ => is_sign c = false | [] => True end.
Proof.
  destruct s as [| c r]; [trivial |].
  unfold is_bit_word. cbn [forallb]. intros [Hc _]%andb_prop.
  destruct c as [[] [] [] [] [] [] [] []]; (reflexivity || discriminate Hc).
Qed.

Lemma is_bit_word_app (s t : str) :
  is_bit_word (s ++ t) = is_bit_word s && is_bit_word t.
Proof. apply forallb_app. Qed.

Lemma is_bit_word_zeros (n : Z) : is_bit_word (mul "0" n) = true.
Proof.
  unfold mul. induction (Z.to_nat n) as [| k IH]; [reflexivity |].
  exact IH.
Qed.

Lemma is_bit_word_zfill (s : str) (width : Z) :
  is_bit_word s = true -> is_bit_word (zfill s width) = true.
Proof.
  intros Hs. rewrite (zfill_no_sign s width (bit_no_sign s Hs)).
  now rewrite is_bit_word_app, is_bit_word_zeros, Hs.
Qed.

Lemma len_zfill_no_sign (s : str) (width : Z) :
  match s with c :: _ => is_sign c = false | [] => True end ->
  len (zfill s width) = Z.max width (len s).
Proof.
  intros Hs. rewrite (zfill_no_sign s width Hs), len_app.
  pose proof (len_nonneg s).
  destruct (Z.le_gt_cases width (len s)).
  - rewrite mul_nonpos by lia. cbn. lia.
  - rewrite length_mul by lia. lia.
Qed.

Lemma is_bit_word_bin_digits (p : positive) :
  is_bit_word (bin_digits p) = true.
Proof.
  induction p as [p IH | p IH |]; cbn [bin_digits]; [| | reflexivity];
    now rewrite is_bit_word_app, IH.
Qed.

Lemma is_bit_word_binary (v : Z) : is_bit_word (binary v) = true.
Proof.
  destruct v; try reflexivity. apply is_bit_word_bin_digits.
Qed.

Lemma bits_value_snoc (s : str) (c : ascii) :
  bits_value (s ++ [c])
  = 2 * bits_value s + (if Ascii.eqb c "1" then 1 else 0).
Proof. unfold bits_value. now rewrite fold_left_app. Qed.

Lemma bits_value_bin_digits (p : positive) :
  bits_value (bin_digits p) = Zpos p.
Proof.
  induction p as [p IH | p IH |]; cbn [bin_digits]; [| | reflexivity];
    rewrite bits_value_snoc, IH; cbn [Ascii.eqb Bool.eqb]; lia.
Qed.

Lemma bits_value_binary (v : Z) : 0 <= v -> bits_value (binary v) = v.
Proof.
  destruct v as [| p | p]; intros Hv; [reflexivity | | lia].
  apply bits_value_bin_digits.
Qed.

Lemma bits_value_zeros (n : Z) (s : str) :
  bits_value (mul "0" n ++ s) = bits_value s.
Proof.
  unfold bits_value, mul. rewrite fold_left_app. f_equal.
  induction (Z.to_nat n) as [| k IH]; [reflexivity |].
  cbn [repeat fold_left]. exact IH.
Qed.

(** An expansion of [n] digits holds a value below [2 ^ n]. *)
Lemma bin_digits_bound (p : positive) :
  Zpos p < 2 ^ len (bin_digits p).
Proof.
  induction p as [p IH | p IH |]; cbn [bin_digits]; [| | reflexivity];
    rewrite len_app; change (len [_]) with 1;
    rewrite Z.pow_add_r by (pose proof (len_nonneg (bin_digits p)); lia);
    lia.
Qed.

Lemma len_binary_wide (v : Z) : 2 ^ 32 <= v -> 32 < len (binary v).
Proof.
  destruct v as [| p | p]; intros Hv; try lia.
  cbn [binary]. pose proof (bin_digits_bound p) as Hb.
  apply (Z.pow_lt_mono_r_iff 2); [lia | apply len_nonneg | lia].
Qed.

(** [bin(n)[2:]] is the expansion of a value that is not negative, and
    keeps the letter of the base mark of a negative one. *)
Lemma bin_tail_nonneg (v : Z) : 0 <= v -> slice_from (bin v) 2 = binary v.
Proof.
  destruct v as [| p | p]; intros Hv; [reflexivity | | lia].
  unfold slice_from, bin. rewrite clamp_inside; [reflexivity |].
  rewrite len_app. pose proof (len_nonneg (bin_digits p)).
  change (len (lit "0b")) with 2. lia.
Qed.

Lemma bin_tail_neg (p : positive) :
  slice_from (bin (Zneg p)) 2 = "b"%char :: bin_digits p.
Proof.
  unfold slice_from, bin. rewrite clamp_inside; [reflexivity |].
  rewrite len_app. pose proof (len_nonneg (bin_digits p)).
  change (len (lit "-0b")) with 3. lia.
Qed.

End Binary.

(** ** Decoding hexadecimal *)

Section Decode.

Lemma hex_to_32bit_bin_padded (token : str) :
  hex_to_32bit_bin token
  = match int 16 (padded token) with
    | Some n => zfill (slice_from (bin n) 2) 32
    | None => mul "0" 32
    end.
Proof.
  unfold hex_to_32bit_bin, padded.
  pose proof (strip_prefix_normalise token) as Hn. cbv zeta in *.
  now rewrite Hn.
Qed.

(** A token read as a value that is not negative is decoded to the
    expansion of the value, filled up to 32 bits and never cut. *)
Lemma hex_to_32bit_bin_nonneg (token : str) (v : Z) :
  int 16 (padded token) = Some v -> 0 <= v ->
  hex_to_32bit_bin token = zfill (binary v) 32
  /\ is_bit_word (hex_to_32bit_bin token) = true
  /\ bits_value (hex_to_32bit_bin token) = v
  /\ len (hex_to_32bit_bin token) = Z.max 32 (len (binary v))
  /\ (2 ^ 32 <= v -> 32 < len (hex_to_32bit_bin token)).
Proof.
  intros Hint Hv. rewrite hex_to_32bit_bin_padded, Hint.
  rewrite (bin_tail_nonneg v Hv).
  pose proof (bit_no_sign _ (is_bit_word_binary v)) as Hsign.
  repeat split.
  - apply is_bit_word_zfill, is_bit_word_binary.
  - rewrite (zfill_no_sign _ 32 Hsign), bits_value_zeros.
    now apply bits_value_binary.
  - now apply len_zfill_no_sign.
  - intros Hwide. rewrite (len_zfill_no_sign _ 32 Hsign).
    pose proof (len_binary_wide v Hwide). lia.
Qed.

(** When [int] raises, the fallback. *)
Lemma hex_to_32bit_bin_fallback (token : str) :
  int 16 (padded token) = None -> hex_to_32bit_bin token = mul "0" 32.
Proof. intros Hint. now rewrite hex_to_32bit_bin_padded, Hint. Qed.

(** The padded digit string of a token of hexadecimal digits. *)
Lemma padded_hex (token : str) :
  forallb is_hex_char (normalise token) = true ->
  forallb is_hex_char (padded token) = true /\ padded token <> []
  /\ hex_value (padded token) = hex_value (normalise token).
Proof.
  intros Hs. unfold padded.
  assert (Hsign : match normalise token with
                  | c :: _ => is_sign c = false
                  | [] => True
                  end).
  { destruct (normalise token) as [| c r]; [trivial |].
    cbn [forallb] in Hs. apply andb_prop in Hs as [Hc _].
    apply (hex_char_facts c Hc). }
  rewrite (zfill_no_sign _ 8 Hsign).
  repeat split.
  - rewrite forallb_app, Hs, andb_true_r. unfold mul.
    induction (Z.to_nat _) as [| k IH]; [reflexivity | exact IH].
  - intros Hnil. apply (f_equal len) in Hnil.
    rewrite len_app in Hnil. change (len []) with 0 in Hnil.
    pose proof (len_nonneg (normalise token)).
    pose proof (len_nonneg (mul "0" (8 - len (normalise token)))).
    destruct (Z.le_gt_cases 8 (len (normalise token))); [lia |].
    rewrite length_mul in Hnil by lia. lia.
  - unfold hex_value, mul. rewrite fold_left_app. f_equal.
    induction (Z.to_nat _) as [| k IH]; [reflexivity | exact IH].
Qed.

(** Every token of hexadecimal digits only (the tokens the Classifier
    does not call invalid) is decoded to the expansion of its value. *)
Lemma hex_to_32bit_bin_digits (token : str) :
  forallb is_hex_char (normalise token) = true ->
  int 16 (padded token) = Some (hex_value (normalise token))
  /\ 0 <= hex_value (normalise token)
  /\ hex_to_32bit_bin token = zfill (binary (hex_value (normalise token))) 32.
Proof.
  intros Hs. destruct (padded_hex token Hs) as (Hp & Hne & Hv).
  assert (Hint : int 16 (padded token) = Some (hex_value (normalise token))).
  { rewrite <- Hv. now apply int_hex_digits. }
  assert (Hpos : 0 <= hex_value (normalise token)).
  { unfold hex_value. apply fold_hex_nonneg; [assumption | lia]. }
  repeat split; try assumption.
  now apply hex_to_32bit_bin_nonneg.
Qed.

End Decode.

(** ** Slicing a word of zeros; the rows of [process_column] *)

Section Rows.

Lemma skipn_repeat {A : Type} (x : A) (k n : nat) :
  skipn k (repeat x n) = repeat x (n - k).
Proof.
  revert k. induction n as [| n IH]; intros [| k]; cbn [repeat skipn Nat.sub];
    try reflexivity.
  apply IH.
Qed.

Lemma firstn_repeat_le {A : Type} (x : A) (k n : nat) :
  (k <= n)%nat -> firstn k (repeat x n) = repeat x k.
Proof.
  revert k. induction n as [| n IH]; intros [| k] Hk;
    cbn [repeat firstn]; try reflexivity; try lia.
  f_equal. apply IH. lia.
Qed.




Lemma positive_nonneg (ws : list Z) :
  Forall (fun w => 0 < w) ws -> Forall (fun w => 0 <= w) ws.
Proof. apply Forall_impl. intros w Hw. lia. Qed.

(** The fields of a present cell have the lengths of the widths. *)
Lemma slice_bits_custom_lengths (bin_str : str) (ws : list Z) :
  Forall (fun w => 0 <= w) ws ->
  Forall2 (fun f w => len f = w) (slice_bits_custom bin_str ws) ws.
Proof.
  intros Hws. rewrite <- (nonneg_widths ws Hws) at 1.
  rewrite slice_bits_custom_slicer.
  generalize 0%nat. induction Hws as [| w ws Hw _ IH]; intros k;
    cbn [map slicer]; constructor.
  - unfold len. rewrite length_field. lia.
  - apply IH.
Qed.





End Rows.

(** ** The AssignmentPlanner *)

Section Planner.









(** The indices of the uniform loop stay below the bit length. *)
Lemma range0_below (stop step : Z) (idx : list Z) :
  1 <= step -> range0 stop step = Some idx ->
  Forall (fun i => 0 <= i < stop) idx.
Proof.
  intros Hstep. unfold range0.
  destruct (Z.eqb_spec step 0); [lia |].
  destruct (Z.ltb_spec 0 step); [| lia].
  intros [= <-]. apply Forall_forall. intros i Hi.
  apply in_map_iff in Hi as (k & <- & Hk). apply in_seq in Hk.
  destruct (Z.ltb_spec 0 stop); [| cbn in Hk; lia].
  assert (Hdiv : step * ((stop - 1) / step) <= stop - 1)
    by (apply Z.mul_div_le; lia).
  assert (0 <= (stop - 1) / step) by (apply Z.div_pos; lia).
  nia.
Qed.

Lemma range0_defined (stop step : Z) :
  1 <= step -> exists idx, range0 stop step = Some idx.
Proof.
  intros Hstep. unfold range0.
  destruct (Z.eqb_spec step 0); [lia |]. eexists. reflexivity.
Qed.

End Planner.

(** ** Sums of widths; tokens that are not read; bit lengths *)

Section Tokens.

Lemma fold_add_shift (ws : list Z) (a : Z) :
  fold_left Z.add ws a = a + fold_left Z.add ws 0.
Proof.
  revert a. induction ws as [| w ws IH]; intros a; cbn [fold_left]; [lia |].
  rewrite (IH (a + w)), (IH (0 + w)). lia.
Qed.

Lemma sum_cons (w : Z) (ws : list Z) : sum (w :: ws) = w + sum ws.
Proof. unfold sum. cbn [fold_left]. rewrite fold_add_shift. lia. Qed.

Lemma sum_to_nat (ws : list Z) :
  Forall (fun w => 0 <= w) ws ->
  Z.of_nat (list_sum (map Z.to_nat ws)) = sum ws.
Proof.
  induction 1 as [| w ws Hw _ IH]; [reflexivity |].
  rewrite sum_cons, <- IH. simpl list_sum. lia.
Qed.

Lemma bit_not_space (c : ascii) :
  is_bit c = true -> negb (isspace c) = true.
Proof.
  destruct c as [[] [] [] [] [] [] [] []]; vm_compute; congruence.
Qed.

Lemma strip_bit_word (s : str) : is_bit_word s = true -> strip s = s.
Proof.
  intros Hs. apply strip_no_space.
  apply forallb_forall. intros c Hc. apply bit_not_space.
  unfold is_bit_word in Hs. rewrite forallb_forall in Hs. auto.
Qed.

Lemma forallb_zfill (P : ascii -> bool) (s : str) (width : Z) :
  forallb P (zfill s width) = true -> forallb P s = true.
Proof.
  unfold zfill. destruct (width <=? len s); [exact (fun H => H) |].
  destruct s as [| c r]; [reflexivity |].
  destruct (is_sign c).
  - cbn [forallb]. rewrite forallb_app.
    intros [-> [_ ->]%andb_prop]%andb_prop. reflexivity.
  - rewrite forallb_app. now intros [_ H]%andb_prop.
Qed.


(** A token read as a negative value keeps the letter b of [bin]. *)
Lemma hex_to_32bit_bin_negative (token : str) (p : positive) :
  int 16 (padded token) = Some (Zneg p) ->
  hex_to_32bit_bin token = zfill ("b"%char :: bin_digits p) 32
  /\ is_bit_word (hex_to_32bit_bin token) = false.
Proof.
  intros Hint. rewrite hex_to_32bit_bin_padded, Hint, bin_tail_neg.
  split; [reflexivity |].
  destruct (is_bit_word _) eqn:Hb; [| reflexivity].
  apply forallb_zfill in Hb. discriminate Hb.
Qed.

(** [detect_bit_length] by cases: the length of the trimmed token, its
    prefix included, or 32. *)
Lemma detect_bit_length_cases (value : str) :
  detect_bit_length value
  = if is_likely_binary value then len (strip value) else 32.
Proof. unfold detect_bit_length. now rewrite is_likely_binary_strip. Qed.

Lemma len_lower (s : str) : len (lower s) = len s.
Proof. unfold len, lower. now rewrite length_map. Qed.

(** On a token written with the prefix, the length counts its two
    characters. *)
Lemma detect_bit_length_prefixed (value : str) :
  startswith_0x (lower (strip value)) = true ->
  is_likely_binary value = true ->
  detect_bit_length value = len (normalise value) + 2.
Proof.
  intros Hp Hb. rewrite detect_bit_length_cases, Hb, <- len_lower.
  unfold normalise.
  destruct (lower (strip value)) as [| c0 [| c1 r]]; try discriminate Hp.
  unfold startswith_0x in Hp. apply andb_prop in Hp as [H0 H1].
  apply Ascii.eqb_eq in H0, H1. subst c0 c1.
  unfold len. cbn [length]. lia.
Qed.

(** Without the prefix, it is the length of the normalised token. *)
Lemma detect_bit_length_plain (value : str) :
  startswith_0x (lower (strip value)) = false ->
  is_likely_binary value = true ->
  detect_bit_length value = len (normalise value).
Proof.
  intros Hp Hb. rewrite detect_bit_length_cases, Hb, <- len_lower.
  pose proof (strip_prefix_normalise value) as Hn. cbv zeta in Hn.
  rewrite Hp in Hn. now rewrite Hn.
Qed.

End Tokens.

(** ** The fields of a bit word are bit words *)

Section BitFields.

Lemma is_bit_word_skipn (k : nat) (s : str) :
  is_bit_word s = true -> is_bit_word (skipn k s) = true.
Proof.
  revert s. induction k as [| k IH]; intros [| c s]; cbn [skipn];
    try (intros H; exact H).
  unfold is_bit_word. cbn [forallb]. intros [_ H]%andb_prop.
  now apply IH.
Qed.

Lemma is_bit_word_firstn (k : nat) (s : str) :
  is_bit_word s = true -> is_bit_word (firstn k s) = true.
Proof.
  revert s. induction k as [| k IH]; intros [| c s]; cbn [firstn];
    try reflexivity.
  unfold is_bit_word. cbn [forallb]. intros [-> H]%andb_prop.
  now apply IH.
Qed.

Lemma is_bit_word_repeat (n : nat) : is_bit_word (repeat "0"%char n) = true.
Proof. induction n as [| n IH]; [reflexivity | exact IH]. Qed.

Lemma is_bit_word_field (k : nat) (s : str) (w : nat) :
  is_bit_word s = true -> is_bit_word (field k s w) = true.
Proof.
  intros Hs. unfold field.
  destruct (length s <=? k)%nat; [apply is_bit_word_repeat |].
  destruct (length s <? k + w)%nat.
  - rewrite is_bit_word_app, is_bit_word_skipn, is_bit_word_repeat;
      [reflexivity | assumption].
  - now apply is_bit_word_firstn, is_bit_word_skipn.
Qed.

Lemma is_bit_word_slicer (s : str) (ws : list nat) (k : nat) :
  is_bit_word s = true ->
  Forall (fun f => is_bit_word f = true) (slicer k s ws).
Proof.
  intros Hs. revert k. induction ws as [| w ws IH]; intros k;
    cbn [slicer]; constructor; [now apply is_bit_word_field | apply IH].
Qed.

End BitFields.

(** ** The properties of the specification *)



(** C2. Round trip: for a token of bits of length L, filled with zeros on
    the left to length L, and positive widths that add up to L, the fields
    of [slice_bits_custom] concatenated are the token; so are the fields of
    the row of [process_column] for a token of a column known as binary or
    taken for binary. *)
Theorem slice_round_trip (token : str) (widths : list Z) :
  is_bit_word token = true ->
  Forall (fun w => 0 < w) widths ->
  sum widths = len token ->
  concat (slice_bits_custom (zfill token (len token)) widths) = token
  /\ (forall in_binary_columns,
        in_binary_columns = true \/ is_likely_binary token = true ->
        concat (process_value in_binary_columns (len token) widths
                  (Some token)) = token).
Proof.
  intros Hbits Hws Hsum. apply positive_nonneg in Hws.
  assert (Hcore :
    concat (slice_bits_custom (zfill token (len token)) widths) = token).
  { rewrite zfill_long by lia.
    rewrite <- (nonneg_widths widths Hws), slice_bits_custom_slicer.
    rewrite concat_slicer; [reflexivity |].
    apply Nat2Z.inj. rewrite Nat.add_0_l, (sum_to_nat widths Hws).
    exact Hsum. }
  split; [exact Hcore |].
  intros in_binary_columns Hbin. unfold process_value.
  rewrite (strip_bit_word token Hbits).
  destruct in_binary_columns; [exact Hcore |].
  destruct Hbin as [Hbin | Hbin]; [discriminate |].
  rewrite Hbin. exact Hcore.
Qed.

Lemma slice_round_trip_witness :
  concat (slice_bits_custom
            (zfill (lit "101011001") (len (lit "101011001"))) [4; 5])
  = lit "101011001"
  /\ (forall in_binary_columns,
        in_binary_columns = true \/ is_likely_binary (lit "101011001") = true ->
        concat (process_value in_binary_columns (len (lit "101011001")) [4; 5]
                  (Some (lit "101011001"))) = lit "101011001").
Proof.
  apply (slice_round_trip (lit "101011001") [4; 5]).
  - reflexivity.
  - repeat constructor.
  - reflexivity.
Defined.

(** C3. [is_likely_binary] answers true exactly when the token, trimmed,
    lower-cased and without a leading 0x, holds only the characters 0 and 1
    and is longer than 8; a string of 0 and 1 of length 8 or less is not
    binary, and the Classifier of section 4.1 calls it hexadecimal;
    [is_likely_binary] is the Binary answer of that Classifier.  The
    function is total. *)
Theorem is_likely_binary_spec (token : str) :
  (is_likely_binary token = true
   <-> is_bit_word (normalise token) = true /\ 8 < len (normalise token))
  /\ (is_bit_word (normalise token) = true -> len (normalise token) <= 8 ->
      is_likely_binary token = false /\ classify token = Hex)
  /\ (is_likely_binary token = true <-> classify token = Binary).
Proof.
  split; [| split].
  - rewrite is_likely_binary_normalise, andb_true_iff, Z.ltb_lt. reflexivity.
  - intros Hb Hlen. split.
    + rewrite is_likely_binary_normalise, Hb.
      destruct (Z.ltb_spec 8 (len (normalise token))); [lia | reflexivity].
    + unfold classify. cbv zeta.
      rewrite <- forallb_hex_not_high in Hb.
      apply andb_prop in Hb as [Hhex Hhigh].
      rewrite existsb_negb_forallb, Hhex. cbn [negb].
      destruct (existsb is_high_digit (normalise token)); [discriminate |].
      destruct (Z.leb_spec (len (normalise token)) 8); [reflexivity | lia].
  - symmetry. apply classify_binary.
Qed.

(** The tokens of section 8. *)
Example classify_examples :
  classify (lit "0x1F") = Hex /\ classify (lit "11111111") = Hex
  /\ classify (lit "111111111") = Binary /\ classify (lit "12AB") = Hex
  /\ classify (lit "12G3") = Invalid.
Proof. vm_compute. repeat split; reflexivity. Qed.

Example hex_to_32bit_bin_FF :
  hex_to_32bit_bin (lit "FF") = mul "0" 24 ++ lit "11111111".
Proof. vm_compute. reflexivity. Qed.

(** C4. The token -1 is read as a base-16 integer, of value -1, and is
    decoded to thirty zeros followed by the letter b and a 1: the slice
    [bin(n)[2:]] cuts the sign and the zero of the mark -0b and keeps its
    letter.  The result is no expansion of the value and no bit word. *)
Theorem hex_to_32bit_bin_minus_one :
  int 16 (padded (lit "-1")) = Some (-1)
  /\ hex_to_32bit_bin (lit "-1") = mul "0" 30 ++ lit "b1"
  /\ is_bit_word (hex_to_32bit_bin (lit "-1")) = false.
Proof. vm_compute. repeat split; reflexivity. Qed.




(** C6. The token 0x111111111 is taken for binary, its nine digits being
    0 and 1, and [detect_bit_length] returns 11: the length of the trimmed
    token with the two characters of its prefix, not the 9 of the token
    without the prefix. *)
Theorem detect_bit_length_counts_prefix :
  is_likely_binary (lit "0x111111111") = true
  /\ len (normalise (lit "0x111111111")) = 9
  /\ detect_bit_length (lit "0x111111111") = 11.
Proof. vm_compute. repeat split; reflexivity. Qed.






(** C9, as amended.  With a slice size of 1 or more, the uniform branch of
    [get_bit_assignments] returns widths that are all between 1 and the
    slice size. *)
Theorem uniform_widths_positive (slice_size bit_length : Z) (text : str) :
  1 <= slice_size ->
  exists widths,
    get_bit_assignments true slice_size bit_length text
    = Returns (Some widths)
    /\ Forall (fun w => 1 <= w <= slice_size) widths.
Proof.
  intros Hstep. unfold get_bit_assignments.
  destruct (range0_defined bit_length slice_size Hstep) as [idx Hidx].
  rewrite Hidx. eexists. split; [reflexivity |].
  apply range0_below in Hidx; [| assumption].
  apply Forall_map. revert Hidx. apply Forall_impl.
  intros i Hi. cbv zeta. lia.
Qed.

Lemma uniform_widths_positive_witness :
  exists widths,
    get_bit_assignments true 4 10 [] = Returns (Some widths)
    /\ Forall (fun w => 1 <= w <= 4) widths.
Proof. apply (uniform_widths_positive 4 10 []). lia. Defined.

(** C9, as stated, fails: the custom branch returns the integers of the
    width spec as they are written, a zero and a negative one here. *)
Lemma parsed_widths_not_positive :
  parse_bit_assignments (lit "0,-5") = Returns [0; -5]
  /\ get_bit_assignments false 4 32 (lit "0,-5") = Returns (Some [0; -5])
  /\ ~ Forall (fun w => 1 <= w) [0; -5].
Proof.
  repeat split; try reflexivity.
  intros H. inversion H. lia.
Qed.


(** The slices of section 8. *)
Example slice_bits_custom_examples :
  slice_bits_custom (lit "1010") [2; 2] = [lit "10"; lit "10"]
  /\ slice_bits_custom (lit "101") [2; 2] = [lit "10"; lit "10"]
  /\ slice_bits_custom (lit "1010") [1; 1; 1; 1; 1]
     = [lit "1"; lit "0"; lit "1"; lit "0"; lit "0"].
Proof. vm_compute. repeat split; reflexivity. Qed.

Example slice_bits_custom_signed :
  slice_bits_custom (lit "1010") [1; -3; -5; 3; 9]
  = [lit "1"; lit "0"; lit ""; lit "000"; lit "10100"].
Proof. vm_compute. reflexivity. Qed.

Example get_bit_assignments_uniform :
  get_bit_assignments true 4 10 [] = Returns (Some [4; 4; 2]).
Proof. vm_compute. reflexivity. Qed.

Example nan_token_zero_filled :
  process_value false 32 [8; 8; 8; 8] (Some (lit "nan"))
  = [mul "0" 8; mul "0" 8; mul "0" 8; mul "0" 8].
Proof. vm_compute. reflexivity. Qed.

(** ** Further properties of the code *)

(** X1. A token whose padded digit string [int] reads as a value that is
    not negative is decoded to the binary expansion of the value, filled
    with zeros on the left to 32 characters: a bit word of that value, at
    least 32 long, and longer than 32 when the value is 2^32 or more. *)
Theorem hex_to_32bit_bin_expansion (token : str) (v : Z) :
  int 16 (padded token) = Some v -> 0 <= v ->
  hex_to_32bit_bin token = zfill (binary v) 32
  /\ is_bit_word (hex_to_32bit_bin token) = true
  /\ bits_value (hex_to_32bit_bin token) = v
  /\ 32 <= len (hex_to_32bit_bin token)
  /\ (2 ^ 32 <= v -> 32 < len (hex_to_32bit_bin token)).
Proof.
  intros Hint Hv.
  destruct (hex_to_32bit_bin_nonneg token v Hint Hv)
    as (Heq & Hbits & Hval & Hlen & Hwide).
  repeat split; try assumption. lia.
Qed.

Lemma hex_to_32bit_bin_expansion_witness :
  hex_to_32bit_bin (lit "1FFFFFFFF") = zfill (binary 8589934591) 32
  /\ is_bit_word (hex_to_32bit_bin (lit "1FFFFFFFF")) = true
  /\ bits_value (hex_to_32bit_bin (lit "1FFFFFFFF")) = 8589934591
  /\ 32 <= len (hex_to_32bit_bin (lit "1FFFFFFFF"))
  /\ (2 ^ 32 <= 8589934591 -> 32 < len (hex_to_32bit_bin (lit "1FFFFFFFF"))).
Proof.
  apply (hex_to_32bit_bin_expansion (lit "1FFFFFFFF") 8589934591).
  - reflexivity.
  - lia.
Defined.

(** X2. A token that, normalised, holds hexadecimal digits only (one the
    Classifier does not call invalid) is read as the value of its digits
    and decoded to the expansion of that value. *)
Theorem hex_digits_decoded (token : str) :
  forallb is_hex_char (normalise token) = true ->
  int 16 (padded token) = Some (hex_value (normalise token))
  /\ 0 <= hex_value (normalise token)
  /\ hex_to_32bit_bin token
     = zfill (binary (hex_value (normalise token))) 32.
Proof. apply hex_to_32bit_bin_digits. Qed.

Lemma hex_digits_decoded_witness :
  int 16 (padded (lit " 0x1F ")) = Some 31
  /\ 0 <= hex_value (normalise (lit " 0x1F "))
  /\ hex_to_32bit_bin (lit " 0x1F ") = zfill (binary 31) 32.
Proof. apply (hex_digits_decoded (lit " 0x1F ")). reflexivity. Defined.

(** X3. [detect_bit_length] returns 32 for a token that is not taken for
    binary; for one that is, the length of the normalised token, plus 2
    when the token is written with the prefix 0x. *)
Theorem detect_bit_length_spec (value : str) :
  (is_likely_binary value = false -> detect_bit_length value = 32)
  /\ (is_likely_binary value = true ->
      detect_bit_length value
      = len (normalise value)
        + (if startswith_0x (lower (strip value)) then 2 else 0)).
Proof.
  split; intros Hb.
  - now rewrite detect_bit_length_cases, Hb.
  - destruct (startswith_0x (lower (strip value))) eqn:Hp.
    + now apply detect_bit_length_prefixed.
    + rewrite Z.add_0_r. now apply detect_bit_length_plain.
Qed.

(** ** What the fields add up to *)

Section Concat.

Lemma firstn_add {A : Type} (a b : nat) (l : list A) :
  firstn (a + b) l = firstn a l ++ firstn b (skipn a l).
Proof.
  revert l. induction a as [| a IH]; intros [| x l]; cbn [Nat.add firstn skipn app];
    try reflexivity.
  - now rewrite firstn_nil.
  - now rewrite IH.
Qed.

(** A field is cut from the word followed by enough zeros. *)
Lemma field_padded (k : nat) (s : str) (w n : nat) :
  (k + w <= length s + n)%nat ->
  field k s w = firstn w (skipn k (s ++ repeat "0"%char n)).
Proof.
  intros Hn. unfold field.
  rewrite skipn_app, firstn_app, length_skipn, skipn_repeat.
  destruct (Nat.leb_spec (length s) k) as [Hle | Hgt].
  - rewrite skipn_all2 by lia. cbn [firstn app].
    rewrite firstn_nil. cbn [app].
    rewrite firstn_repeat_le by lia. f_equal. lia.
  - replace (k - length s)%nat with O by lia. rewrite Nat.sub_0_r.
    destruct (Nat.ltb_spec (length s) (k + w)) as [Hlt | Hge].
    + rewrite firstn_all2 by (rewrite length_skipn; lia).
      now rewrite firstn_repeat_le by lia.
    + replace (w - (length s - k))%nat with O by lia.
      cbn [firstn]. now rewrite app_nil_r.
Qed.

Lemma concat_slicer_padded (s : str) (n : nat) (ws : list nat) (k : nat) :
  (k + list_sum ws <= length s + n)%nat ->
  concat (slicer k s ws)
  = firstn (list_sum ws) (skipn k (s ++ repeat "0"%char n)).
Proof.
  revert k. induction ws as [| w ws IH]; intros k Hn;
    cbn [slicer concat]; simpl list_sum in *; [reflexivity |].
  rewrite firstn_add, skipn_skipn, (Nat.add_comm w k).
  rewrite <- IH by lia. f_equal. apply field_padded. lia.
Qed.


Lemma concat_slice_bits_custom (bin_str : str) (ws : list Z) :
  Forall (fun w => 0 <= w) ws ->
  concat (slice_bits_custom bin_str ws)
  = firstn (Z.to_nat (sum ws)) (bin_str ++ mul "0" (sum ws)).
Proof.
  intros Hws. rewrite <- (nonneg_widths ws Hws) at 1.
  rewrite slice_bits_custom_slicer. unfold mul.
  rewrite (concat_slicer_padded bin_str (Z.to_nat (sum ws))).
  - rewrite <- (sum_to_nat ws Hws), Nat2Z.id. reflexivity.
  - rewrite <- (sum_to_nat ws Hws), Nat2Z.id. lia.
Qed.

End Concat.

(** ** Uniform widths and the uniform slicer *)

Section Uniform.

Variables (n : Z) (Hn : 1 <= n).

Lemma range0_pos (stop : Z) :
  range0 stop n
  = Some (map (fun k => Z.of_nat k * n)
            (seq 0 (Z.to_nat (if 0 <? stop then (stop - 1) / n + 1 else 0)))).
Proof.
  unfold range0.
  destruct (Z.eqb_spec n 0); [lia |].
  destruct (Z.ltb_spec 0 n); [reflexivity | lia].
Qed.

Lemma uniform_count (L : Z) :
  0 <= L ->
  Z.to_nat (if 0 <? L then (L - 1) / n + 1 else 0)
  = (Z.to_nat (L / n) + (if (L mod n =? 0)%Z then 0 else 1))%nat.
Proof.
  intros HL.
  pose proof (Z.div_mod L n ltac:(lia)) as Hdm.
  pose proof (Z.mod_pos_bound L n ltac:(lia)) as Hm.
  assert (Hq : 0 <= L / n) by (apply Z.div_pos; lia).
  destruct (Z.ltb_spec 0 L) as [Hpos | Hzero].
  - destruct (Z.eqb_spec (L mod n) 0) as [Hr | Hr].
    + assert (Hd : (L - 1) / n = L / n - 1).
      { symmetry. apply (Z.div_unique (L - 1) n (L / n - 1) (n - 1)); lia. }
      rewrite Hd. lia.
    + assert (Hd : (L - 1) / n = L / n).
      { symmetry. apply (Z.div_unique (L - 1) n (L / n) (L mod n - 1)); lia. }
      rewrite Hd. lia.
  - assert (L = 0) by lia. subst L.
    rewrite Z.div_0_l, Z.mod_0_l by lia. reflexivity.
Qed.

Lemma map_const {A B : Type} (f : A -> B) (c : B) (l : list A) :
  (forall x, In x l -> f x = c) -> map f l = repeat c (length l).
Proof.
  induction l as [| x l IH]; intros Hf; cbn [map length repeat];
    [reflexivity |].
  rewrite (Hf x) by now left. f_equal. apply IH. intros y Hy. apply Hf.
  now right.
Qed.

(** The widths of the uniform branch, in closed form. *)
Lemma uniform_widths_closed (L : Z) (text : str) :
  0 <= L ->
  get_bit_assignments true n L text
  = Returns (Some (repeat n (Z.to_nat (L / n))
                   ++ (if L mod n =? 0 then [] else [L mod n]))).
Proof.
  intros HL. unfold get_bit_assignments.
  rewrite range0_pos, map_map, (uniform_count L HL). cbv zeta.
  pose proof (Z.div_mod L n ltac:(lia)) as Hdm.
  pose proof (Z.mod_pos_bound L n ltac:(lia)) as Hm.
  assert (Hq : 0 <= L / n) by (apply Z.div_pos; lia).
  rewrite seq_app, map_app. do 3 f_equal.
  - rewrite (map_const _ n).
    + now rewrite length_seq.
    + intros k Hk. apply in_seq in Hk. nia.
  - cbn [Nat.add]. destruct (Z.eqb_spec (L mod n) 0); [reflexivity |].
    cbn [seq map]. f_equal. rewrite Z2Nat.id by lia. lia.
Qed.

Lemma sum_app (l1 l2 : list Z) : sum (l1 ++ l2) = sum l1 + sum l2.
Proof.
  induction l1 as [| x l1 IH]; cbn [app]; [reflexivity |].
  rewrite !sum_cons, IH. lia.
Qed.

Lemma sum_repeat (c : Z) (k : nat) : sum (repeat c k) = Z.of_nat k * c.
Proof.
  induction k as [| k IH]; [reflexivity |].
  cbn [repeat]. rewrite sum_cons, IH. lia.
Qed.

Lemma sum_uniform (L : Z) :
  0 <= L ->
  sum (repeat n (Z.to_nat (L / n))
       ++ (if L mod n =? 0 then [] else [L mod n])) = L.
Proof.
  intros HL.
  pose proof (Z.div_mod L n ltac:(lia)) as Hdm.
  assert (Hq : 0 <= L / n) by (apply Z.div_pos; lia).
  rewrite sum_app, sum_repeat, Z2Nat.id by lia.
  destruct (Z.eqb_spec (L mod n) 0) as [Hr | Hr].
  - change (sum []) with 0. lia.
  - rewrite sum_cons. change (sum []) with 0. lia.
Qed.

Variable bin_str : str.

Lemma len_slice (lo hi : Z) :
  0 <= lo <= hi -> hi <= len bin_str -> len (slice bin_str lo hi) = hi - lo.
Proof.
  intros Hlo Hhi. unfold slice.
  rewrite !clamp_inside by lia. unfold len in *.
  rewrite length_firstn, length_skipn. lia.
Qed.

(** A turn of the loop of [slice_bits_custom] on a field that lies inside
    the word. *)
Lemma slice_step_inside (slices : list str) (i bits : Z) :
  0 <= i -> 0 <= bits -> i < len bin_str -> i + bits <= len bin_str ->
  slice_step bin_str (slices, i) bits
  = (slices ++ [slice bin_str i (i + bits)], i + bits).
Proof.
  intros Hi Hb Hlt Hle. unfold slice_step.
  destruct (Z.geb_spec i (len bin_str)); [lia |].
  destruct (Z.gtb_spec (i + bits) (len bin_str)); [lia |].
  rewrite zfill_long; [reflexivity |]. rewrite len_slice; lia.
Qed.

Lemma fold_uniform (m : nat) :
  forall (k0 : nat) (slices : list str),
    (m = 0%nat \/ (Z.of_nat k0 + Z.of_nat m - 1) * n < len bin_str) ->
    fst (fold_left (slice_step bin_str)
           (map (fun k => Z.min n (len bin_str - Z.of_nat k * n)) (seq k0 m))
           (slices, Z.of_nat k0 * n))
    = slices
      ++ map (fun k => slice bin_str (Z.of_nat k * n)
                         (Z.min (Z.of_nat k * n + n) (len bin_str)))
           (seq k0 m).
Proof.
  induction m as [| m IH]; intros k0 slices Hm; cbn [seq map fold_left].
  - cbn [fst]. now rewrite app_nil_r.
  - destruct Hm as [Hm | Hm]; [discriminate |].
    rewrite slice_step_inside by nia.
    rewrite <- Z.add_min_distr_l.
    replace (Z.of_nat k0 * n + (len bin_str - Z.of_nat k0 * n))
      with (len bin_str) by lia.
    destruct m as [| m'].
    + cbn [seq map fold_left fst]. reflexivity.
    + replace (Z.min (Z.of_nat k0 * n + n) (len bin_str))
        with (Z.of_nat (S k0) * n) at 2 by nia.
      rewrite IH by (right; nia).
      rewrite <- app_assoc. reflexivity.
Qed.

(** [slice_bits] is [slice_bits_custom] on the uniform widths. *)
Lemma slice_bits_uniform (text : str) (ws : list Z) :
  get_bit_assignments true n (len bin_str) text = Returns (Some ws) ->
  slice_bits bin_str n = Returns (slice_bits_custom bin_str ws).
Proof.
  unfold get_bit_assignments, slice_bits. cbv zeta.
  rewrite range0_pos, !map_map. intros [= <-]. f_equal.
  unfold slice_bits_custom. symmetry.
  apply (fold_uniform _ 0 []).
  pose proof (len_nonneg bin_str) as Hlen.
  destruct (Z.ltb_spec 0 (len bin_str)) as [Hpos | Hzero]; [right | now left].
  assert (Hq : 0 <= (len bin_str - 1) / n) by (apply Z.div_pos; lia).
  pose proof (Z.mul_div_le (len bin_str - 1) n ltac:(lia)).
  rewrite Z2Nat.id by lia. nia.
Qed.

End Uniform.

(** ** Column names *)

Section Names.



Lemma string_of_uint_digits (d : Decimal.uint) :
  forallb (fun c => (digit_value c <? 10) || Ascii.eqb c "-")
    (list_ascii_of_string (NilEmpty.string_of_uint d)) = true.
Proof.
  induction d; cbn [NilEmpty.string_of_uint list_ascii_of_string forallb];
    try reflexivity; rewrite IHd; reflexivity.
Qed.

(** The decimal text of an integer: digits and the minus sign, and never
    empty. *)
Lemma str_of_int_chars (z : Z) :
  forallb (fun c => (digit_value c <? 10) || Ascii.eqb c "-")
    (str_of_int z) = true
  /\ str_of_int z <> [].
Proof.
  unfold str_of_int, NilZero.string_of_int.
  assert (Hu : forall d,
             forallb (fun c => (digit_value c <? 10) || Ascii.eqb c "-")
               (list_ascii_of_string (NilZero.string_of_uint d)) = true
             /\ list_ascii_of_string (NilZero.string_of_uint d) <> []).
  { intros d. split.
    - destruct d; try reflexivity; apply string_of_uint_digits.
    - destruct d; discriminate. }
  destruct (Z.to_int z) as [d | d].
  - apply Hu.
  - cbn [list_ascii_of_string forallb]. split; [apply Hu | discriminate].
Qed.

Lemma decimal_char_facts (c : ascii) :
  (digit_value c <? 10) || Ascii.eqb c "-" = true ->
  Ascii.eqb c "_" = false /\ Ascii.eqb "_" c = false
  /\ Ascii.eqb "i" c = false /\ Ascii.eqb "b" c = false.
Proof.
  destruct c as [[] [] [] [] [] [] [] []]; vm_compute; intuition congruence.
Qed.

Lemma decimal_no_underscore (s : str) :
  forallb (fun c => (digit_value c <? 10) || Ascii.eqb c "-") s = true ->
  forallb (fun c => negb (Ascii.eqb "_" c)) s = true.
Proof.
  induction s as [| c s IH]; cbn [forallb]; [reflexivity |].
  intros [Hc Hs]%andb_prop.
  destruct (decimal_char_facts c Hc) as (_ & -> & _).
  now rewrite IH.
Qed.






(** *** The names that [load_file] takes for binary columns *)

Lemma contains_nil (p : str) : p <> [] -> contains p [] = false.
Proof. destruct p; [congruence | reflexivity]. Qed.

(** A text without underscore holds no start of [_bit]. *)
Lemma contains_bit_skip (a b : str) :
  forallb (fun c => negb (Ascii.eqb "_" c)) a = true ->
  contains (lit "_bit") (a ++ b) = contains (lit "_bit") b.
Proof.
  induction a as [| c a IH]; cbn [forallb app]; [reflexivity |].
  intros [Hc Ha]%andb_prop. cbn [contains].
  rewrite (IH Ha).
  change (lit "_bit") with ("_"%char :: lit "bit") at 1.
  cbn [startswith]. apply negb_true_iff in Hc. now rewrite Hc.
Qed.

(** Before a tail that starts with [_b] and a character that is not [i],
    [_bit] begins where it begins in the text alone. *)
Lemma startswith_bit_tail (x t : str) (d : ascii) :
  Ascii.eqb "i" d = false ->
  startswith (lit "_bit") (x ++ "_"%char :: "b"%char :: d :: t)
  = startswith (lit "_bit") x.
Proof.
  intros Hd.
  destruct x as [| c1 [| c2 [| c3 [| c4 x]]]]; cbn [app lit
    list_ascii_of_string startswith]; rewrite ?Hd;
    cbn [Ascii.eqb Bool.eqb andb]; rewrite ?andb_false_r; reflexivity.
Qed.

Lemma contains_bit_tail (x t : str) (d : ascii) :
  Ascii.eqb "i" d = false ->
  contains (lit "_bit") (x ++ "_"%char :: "b"%char :: d :: t)
  = contains (lit "_bit") x
    || contains (lit "_bit") ("_"%char :: "b"%char :: d :: t).
Proof.
  intros Hd. induction x as [| c x IH].
  - cbn [app]. now rewrite contains_nil by discriminate.
  - change ((c :: x) ++ "_"%char :: "b"%char :: d :: t)
      with (c :: (x ++ "_"%char :: "b"%char :: d :: t)).
    cbn [contains]. rewrite IH.
    change (c :: (x ++ "_"%char :: "b"%char :: d :: t))
      with ((c :: x) ++ "_"%char :: "b"%char :: d :: t).
    rewrite (startswith_bit_tail (c :: x) t d Hd).
    now rewrite orb_assoc.
Qed.

Lemma contains_cons (p : str) (c : ascii) (s : str) :
  contains p (c :: s) = startswith p (c :: s) || contains p s.
Proof. reflexivity. Qed.

Lemma startswith_bit_us (e : ascii) (t : str) :
  Ascii.eqb "b" e = false ->
  startswith (lit "_bit") ("_"%char :: e :: t) = false.
Proof.
  intros He. change (lit "_bit") with ("_"%char :: "b"%char :: lit "it").
  cbn [startswith]. rewrite He. now rewrite andb_false_r.
Qed.

(** The tail that [column_name] adds to the base name holds [_b] and no
    [_bit]. *)
Lemma column_name_tail (i bits : Z) :
  exists d t,
    lit "_b" ++ str_of_int i ++ lit "_" ++ str_of_int bits ++ lit "bit"
    = "_"%char :: "b"%char :: d :: t
    /\ Ascii.eqb "i" d = false
    /\ contains (lit "_bit") ("_"%char :: "b"%char :: d :: t) = false.
Proof.
  destruct (str_of_int_chars i) as [Hi Hine].
  destruct (str_of_int_chars bits) as [Hb Hbne].
  destruct (str_of_int i) as [| d si] eqn:Ei; [congruence |].
  destruct (str_of_int bits) as [| e sb] eqn:Eb; [congruence |].
  exists d, (si ++ "_"%char :: e :: sb ++ lit "bit").
  pose proof Hi as Hi0. cbn [forallb] in Hi0.
  apply andb_prop in Hi0 as [Hd _].
  destruct (decimal_char_facts d Hd) as (_ & _ & Hdi & _).
  pose proof Hb as Hb0. cbn [forallb] in Hb0.
  apply andb_prop in Hb0 as [He _].
  destruct (decimal_char_facts e He) as (_ & _ & _ & Heb).
  repeat split; [assumption |].
  rewrite contains_cons.
  rewrite (startswith_bit_tail [] _ d Hdi : startswith (lit "_bit")
             ("_"%char :: "b"%char :: d :: _) = _).
  change (startswith (lit "_bit") []) with false. cbn [orb].
  change ("b"%char :: d :: si ++ "_"%char :: e :: sb ++ lit "bit")
    with (("b"%char :: d :: si) ++ "_"%char :: e :: sb ++ lit "bit").
  rewrite contains_bit_skip.
  - rewrite contains_cons, (startswith_bit_us e _ Heb). cbn [orb].
    rewrite <- (app_nil_r (e :: sb ++ lit "bit")).
    change (e :: sb ++ lit "bit") with ((e :: sb) ++ lit "bit").
    rewrite contains_bit_skip; [reflexivity |].
    rewrite forallb_app, (decimal_no_underscore _ Hb). reflexivity.
  - change (forallb (fun c => negb (Ascii.eqb "_" c)) (d :: si) = true).
    exact (decimal_no_underscore _ Hi).
Qed.

Lemma contains_b_column_name (base_name : str) (i bits : Z) :
  contains (lit "_b") (column_name base_name i bits) = true.
Proof.
  unfold column_name.
  induction base_name as [| c s IH]; [reflexivity |].
  change ((c :: s) ++ lit "_b" ++ str_of_int i ++ lit "_" ++ str_of_int bits
          ++ lit "bit")
    with (c :: (s ++ lit "_b" ++ str_of_int i ++ lit "_" ++ str_of_int bits
                ++ lit "bit")).
  cbn [contains]. rewrite IH. apply orb_true_r.
Qed.

Lemma is_binary_column_name (base_name : str) (i bits : Z) :
  is_binary_column (column_name base_name i bits)
  = contains (lit "_bit") base_name.
Proof.
  unfold is_binary_column. rewrite contains_b_column_name. cbn [andb].
  unfold column_name.
  destruct (column_name_tail i bits) as (d & t & -> & Hd & Hnone).
  now rewrite (contains_bit_tail _ _ _ Hd), Hnone, orb_false_r.
Qed.

End Names.

(** ** The rows of a column *)

Section Column.

Lemma hex_to_32bit_bin_strip (token : str) :
  hex_to_32bit_bin (strip token) = hex_to_32bit_bin token.
Proof.
  rewrite !hex_to_32bit_bin_padded. unfold padded.
  now rewrite normalise_strip.
Qed.

Lemma process_value_bin_str (in_binary_columns : bool) (expected_bits : Z)
    (ws : list Z) (token : str) :
  process_value in_binary_columns expected_bits ws (Some token)
  = slice_bits_custom
      (bin_str_of in_binary_columns expected_bits (strip token)) ws.
Proof. reflexivity. Qed.



(** The bit length is that of the first present cell. *)
Lemma first_bit_length_skip (in_binary_columns : bool)
    (absent rest : list (option str)) :
  Forall (fun val => val = None) absent ->
  first_bit_length in_binary_columns (absent ++ rest)
  = first_bit_length in_binary_columns rest.
Proof.
  induction 1 as [| val absent Hval _ IH]; cbn [app]; [reflexivity |].
  subst val. exact IH.
Qed.

Lemma changed_loop_first (in_binary_columns : bool)
    (cells : list (option str)) :
  changed_loop in_binary_columns 32 cells
  = first_bit_length in_binary_columns cells.
Proof.
  induction cells as [| [val |] cells IH]; cbn [changed_loop first_bit_length];
    [reflexivity | reflexivity | exact IH].
Qed.

Lemma len_normalise_le (token : str) :
  len (normalise token) <= len (strip token).
Proof.
  rewrite <- (len_lower (strip token)). unfold normalise.
  destruct (lower (strip token)) as [| c0 [| c1 r]].
  - apply Z.le_refl.
  - destruct c0 as [[] [] [] [] [] [] [] []]; apply Z.le_refl.
  - destruct c0 as [[] [] [] [] [] [] [] []]; try apply Z.le_refl.
    destruct c1 as [[] [] [] [] [] [] [] []]; try apply Z.le_refl.
    unfold len. cbn [length]. lia.
Qed.

Lemma binary_longer_than_8 (token : str) :
  is_likely_binary token = true -> 8 < len (strip token).
Proof.
  rewrite is_likely_binary_normalise.
  intros [_ H]%andb_prop. apply Z.ltb_lt in H.
  pose proof (len_normalise_le token). lia.
Qed.

Lemma first_bit_length_range (cells : list (option str)) :
  first_bit_length false cells = 32 \/ 8 < first_bit_length false cells.
Proof.
  induction cells as [| [val |] cells IH]; cbn [first_bit_length];
    [now left | | exact IH].
  destruct (is_likely_binary (strip val)) eqn:Hb; [right | now left].
  rewrite is_likely_binary_strip in Hb. now apply binary_longer_than_8.
Qed.

Lemma first_bit_length_nonneg (in_binary_columns : bool)
    (cells : list (option str)) :
  0 <= first_bit_length in_binary_columns cells.
Proof.
  induction cells as [| [val |] cells IH]; cbn [first_bit_length];
    [lia | | exact IH].
  pose proof (len_nonneg (strip val)).
  destruct in_binary_columns; [assumption |].
  destruct (is_likely_binary (strip val)); lia.
Qed.

End Column.

(** ** The value of a cut bit word *)

Section Values.

Lemma bits_value_app (a b : str) :
  bits_value (a ++ b) = bits_value a * 2 ^ len b + bits_value b.
Proof.
  induction b as [| c b IH] using rev_ind.
  - rewrite app_nil_r. change (len []) with 0. change (bits_value []) with 0.
    lia.
  - rewrite app_assoc, !bits_value_snoc, IH, len_app.
    change (len [c]) with 1.
    rewrite Z.pow_add_r by (pose proof (len_nonneg b); lia). lia.
Qed.

Lemma bits_value_bound (s : str) : 0 <= bits_value s < 2 ^ len s.
Proof.
  induction s as [| c s IH] using rev_ind.
  - change (bits_value []) with 0. change (len []) with 0. lia.
  - rewrite bits_value_snoc, len_app. change (len [c]) with 1.
    rewrite Z.pow_add_r by (pose proof (len_nonneg s); lia).
    destruct (Ascii.eqb c "1"); lia.
Qed.

(** The first [k] bits of a word hold its value shifted right. *)
Lemma bits_value_firstn (k : nat) (s : str) :
  (k <= length s)%nat ->
  bits_value (firstn k s) = bits_value s / 2 ^ (len s - Z.of_nat k).
Proof.
  intros Hk. rewrite <- (firstn_skipn k s) at 2.
  rewrite bits_value_app.
  assert (Hlen : len (skipn k s) = len s - Z.of_nat k).
  { unfold len. rewrite length_skipn. lia. }
  rewrite Hlen. pose proof (bits_value_bound (skipn k s)) as Hb.
  rewrite Hlen in Hb.
  rewrite Z.div_add_l by lia. rewrite Z.div_small by lia. lia.
Qed.

Lemma bin_digits_lower (p : positive) :
  2 ^ (len (bin_digits p) - 1) <= Zpos p.
Proof.
  induction p as [p IH | p IH |]; cbn [bin_digits]; [| | reflexivity];
    rewrite len_app; change (len [_]) with 1;
    replace (len (bin_digits p) + 1 - 1) with (len (bin_digits p) - 1 + 1)
      by lia;
    (rewrite Z.pow_add_r;
     [| destruct p; cbn [bin_digits]; rewrite ?len_app;
        try pose proof (len_nonneg (bin_digits p));
        change (len [_]) with 1; lia | lia]);
    lia.
Qed.

Lemma len_binary_narrow (v : Z) : 0 <= v < 2 ^ 32 -> len (binary v) <= 32.
Proof.
  destruct v as [| p | p]; intros Hv; try (cbn; lia).
  cbn [binary]. pose proof (bin_digits_lower p) as Hl.
  assert (Hpos : 0 < len (bin_digits p)).
  { destruct p; cbn [bin_digits]; rewrite ?len_app;
      try pose proof (len_nonneg (bin_digits p));
      change (len [_]) with 1; lia. }
  destruct (Z.le_gt_cases (len (bin_digits p)) 32) as [| Hgt];
    [assumption |].
  assert (2 ^ 32 <= 2 ^ (len (bin_digits p) - 1))
    by (apply Z.pow_le_mono_r; lia).
  lia.
Qed.

End Values.

(** ** Words that are bit words *)

Section Validity.

Lemma is_bit_lower_char (c : ascii) : is_bit (lower_char c) = is_bit c.
Proof. destruct c as [[] [] [] [] [] [] [] []]; reflexivity. Qed.

Lemma is_bit_word_lower (s : str) : is_bit_word (lower s) = is_bit_word s.
Proof.
  unfold is_bit_word, lower.
  induction s as [| c s IH]; cbn [map forallb]; [reflexivity |].
  now rewrite is_bit_lower_char, IH.
Qed.

Lemma is_bit_word_zfill_eq (s : str) (width : Z) :
  is_bit_word (zfill s width) = is_bit_word s.
Proof.
  destruct (is_bit_word s) eqn:Hs.
  - now apply is_bit_word_zfill.
  - destruct (is_bit_word (zfill s width)) eqn:Hz; [| reflexivity].
    apply forallb_zfill in Hz. unfold is_bit_word in Hs. congruence.
Qed.

Lemma prefixed_not_bit_word (s : str) :
  startswith_0x (lower s) = true -> is_bit_word s = false.
Proof.
  rewrite <- is_bit_word_lower.
  destruct (lower s) as [| c0 [| c1 r]]; try discriminate.
  unfold startswith_0x. intros [_ H1]%andb_prop.
  apply Ascii.eqb_eq in H1. subst c1.
  unfold is_bit_word. cbn [forallb]. apply andb_false_iff. right.
  reflexivity.
Qed.

Lemma plain_binary_bit_word (token : str) :
  is_likely_binary token = true ->
  startswith_0x (lower (strip token)) = false ->
  is_bit_word (strip token) = true.
Proof.
  intros Hb Hp. rewrite is_likely_binary_normalise in Hb.
  apply andb_prop in Hb as [Hb _].
  pose proof (strip_prefix_normalise token) as Hn. cbv zeta in Hn.
  rewrite Hp in Hn. rewrite <- Hn in Hb.
  now rewrite is_bit_word_lower in Hb.
Qed.

Lemma bin_str_of_bit_word (expected_bits : Z) (token : str) :
  is_bit_word (bin_str_of false expected_bits (strip token))
  = if is_likely_binary token
    then negb (startswith_0x (lower (strip token)))
    else match int 16 (padded token) with
         | Some (Zneg _) => false
         | _ => true
         end.
Proof.
  unfold bin_str_of. rewrite is_likely_binary_strip.
  destruct (is_likely_binary token) eqn:Hb.
  - rewrite is_bit_word_zfill_eq.
    destruct (startswith_0x (lower (strip token))) eqn:Hp; cbn [negb].
    + now apply prefixed_not_bit_word.
    + now apply plain_binary_bit_word.
  - rewrite hex_to_32bit_bin_strip.
    destruct (int 16 (padded token)) as [[| p | p] |] eqn:Hint.
    + apply (hex_to_32bit_bin_nonneg token 0 Hint). lia.
    + apply (hex_to_32bit_bin_nonneg token (Zpos p) Hint). lia.
    + apply (hex_to_32bit_bin_negative token p Hint).
    + rewrite (hex_to_32bit_bin_fallback token Hint).
      apply is_bit_word_zeros.
Qed.

Lemma lengths_of_fields (fs : list str) (ws : list Z) :
  Forall2 (fun f w => len f = w) fs ws -> map len fs = ws.
Proof.
  induction 1 as [| f w fs ws Hf _ IH]; cbn [map]; [reflexivity |].
  now rewrite Hf, IH.
Qed.

Lemma firstn_len_app (s t : str) : firstn (Z.to_nat (len s)) (s ++ t) = s.
Proof.
  unfold len. rewrite Nat2Z.id, firstn_app, Nat.sub_diag, firstn_all.
  cbn [firstn]. apply app_nil_r.
Qed.

Lemma uniform_nonneg (n L : Z) :
  1 <= n -> 0 <= L ->
  Forall (fun w => 0 <= w)
    (repeat n (Z.to_nat (L / n)) ++ (if L mod n =? 0 then [] else [L mod n])).
Proof.
  intros Hn HL. apply Forall_app. split.
  - apply Forall_forall. intros w Hw. apply repeat_spec in Hw. lia.
  - pose proof (Z.mod_pos_bound L n ltac:(lia)).
    destruct (L mod n =? 0); repeat constructor. lia.
Qed.

End Validity.

(** ** Properties of the slicers, the planner and the rows *)



(** X5. For a slice size of 1 or more and a bit length that is not
    negative, the uniform branch of [get_bit_assignments] returns the slice
    size as many times as it fits, then the remainder when there is one;
    the widths add up to the bit length. *)
Theorem uniform_widths_total (slice_size bit_length : Z) (text : str) :
  1 <= slice_size -> 0 <= bit_length ->
  get_bit_assignments true slice_size bit_length text
  = Returns (Some (repeat slice_size (Z.to_nat (bit_length / slice_size))
                   ++ (if bit_length mod slice_size =? 0 then []
                       else [bit_length mod slice_size])))
  /\ sum (repeat slice_size (Z.to_nat (bit_length / slice_size))
          ++ (if bit_length mod slice_size =? 0 then []
              else [bit_length mod slice_size])) = bit_length.
Proof.
  intros Hn HL. split.
  - now apply uniform_widths_closed.
  - now apply sum_uniform.
Qed.

Lemma uniform_widths_total_witness :
  get_bit_assignments true 12 32 [] = Returns (Some [12; 12; 8])
  /\ sum [12; 12; 8] = 32.
Proof. apply (uniform_widths_total 12 32 []); lia. Defined.

(** X6. For a slice size of 1 or more, [slice_bits] returns chunks that put
    end to end are the string: nothing is lost and nothing is added; every
    chunk has the slice size, but the last, which holds the remainder when
    there is one. *)
Theorem slice_bits_chunks (bin_str : str) (slice_size : Z) :
  1 <= slice_size ->
  exists chunks,
    slice_bits bin_str slice_size = Returns chunks
    /\ concat chunks = bin_str
    /\ map len chunks
       = repeat slice_size (Z.to_nat (len bin_str / slice_size))
         ++ (if len bin_str mod slice_size =? 0 then []
             else [len bin_str mod slice_size]).
Proof.
  intros Hn. pose proof (len_nonneg bin_str) as HL.
  pose proof (uniform_widths_closed slice_size Hn (len bin_str) [] HL) as Hws.
  pose proof (uniform_nonneg slice_size (len bin_str) Hn HL) as Hnn.
  pose proof (sum_uniform slice_size Hn (len bin_str) HL) as Hsum.
  eexists. split; [exact (slice_bits_uniform slice_size Hn bin_str [] _ Hws) |].
  split.
  - rewrite (concat_slice_bits_custom bin_str _ Hnn), Hsum.
    apply firstn_len_app.
  - now apply lengths_of_fields, slice_bits_custom_lengths.
Qed.

Lemma slice_bits_chunks_witness :
  exists chunks,
    slice_bits (lit "1011001110") 4 = Returns chunks
    /\ concat chunks = lit "1011001110"
    /\ map len chunks = [4; 4; 2].
Proof. apply (slice_bits_chunks (lit "1011001110") 4). lia. Defined.

(** X7. For a slice size of 1 or more, [slice_bits] returns what
    [slice_bits_custom] returns on the widths of the uniform branch of
    [get_bit_assignments] for the length of the string. *)
Theorem slice_bits_is_custom (bin_str : str) (slice_size : Z) (text : str)
    (ws : list Z) :
  1 <= slice_size ->
  get_bit_assignments true slice_size (len bin_str) text = Returns (Some ws) ->
  slice_bits bin_str slice_size = Returns (slice_bits_custom bin_str ws).
Proof. intros Hn. now apply slice_bits_uniform. Qed.

Lemma slice_bits_is_custom_witness :
  slice_bits (lit "1011001110") 4
  = Returns (slice_bits_custom (lit "1011001110") [4; 4; 2]).
Proof.
  apply (slice_bits_is_custom (lit "1011001110") 4 []).
  - lia.
  - reflexivity.
Defined.

(** X8. [slice_bits] raises [ValueError] on the slice size 0, whatever the
    string; on a negative slice size it returns no chunk at all, whatever
    the string; on the empty string it returns no chunk. *)
Theorem slice_bits_edges (bin_str : str) (slice_size : Z) :
  (slice_size = 0 -> exists e, slice_bits bin_str slice_size = Raises e)
  /\ (slice_size < 0 -> slice_bits bin_str slice_size = Returns [])
  /\ (slice_size <> 0 -> slice_bits [] slice_size = Returns []).
Proof.
  pose proof (len_nonneg bin_str) as HL.
  unfold slice_bits, range0. cbv zeta. repeat split.
  - intros ->. eexists. reflexivity.
  - intros Hneg. destruct (Z.eqb_spec slice_size 0); [lia |].
    destruct (Z.ltb_spec 0 slice_size); [lia |].
    destruct (Z.ltb_spec (len bin_str) 0); [lia | reflexivity].
  - intros Hnz. destruct (Z.eqb_spec slice_size 0); [contradiction |].
    change (len []) with 0.
    destruct (0 <? slice_size); reflexivity.
Qed.


(** X9. [get_current_bit_length] is 32 when no column is at hand or no
    cell is present; otherwise the first present cell decides alone: the
    length of its trimmed text in a column known as binary, what
    [detect_bit_length] says of it in another column, where the result is
    32 or more than 8.  It is never negative, and [on_column_changed]
    shows the same bit length and sets the spin box maximum to that length
    less one, or to 1. *)
Theorem get_current_bit_length_first (in_binary_columns : bool) :
  get_current_bit_length in_binary_columns None = 32
  /\ (forall absent val rest,
        Forall (fun c => c = None) absent ->
        get_current_bit_length in_binary_columns
          (Some (absent ++ Some val :: rest))
        = if in_binary_columns then len (strip val)
          else detect_bit_length val)
  /\ (forall absent,
        Forall (fun c => c = None) absent ->
        get_current_bit_length in_binary_columns (Some absent) = 32)
  /\ (forall column,
        0 <= get_current_bit_length in_binary_columns column)
  /\ (forall column,
        get_current_bit_length false column = 32
        \/ 8 < get_current_bit_length false column)
  /\ (forall cells,
        on_column_changed in_binary_columns (Some cells)
        = Some (get_current_bit_length in_binary_columns (Some cells),
                Z.max (get_current_bit_length in_binary_columns (Some cells)
                       - 1) 1)).
Proof.
  repeat split.
  - intros absent val rest Habs. cbn [get_current_bit_length].
    rewrite (first_bit_length_skip _ _ _ Habs). reflexivity.
  - intros absent Habs. cbn [get_current_bit_length].
    rewrite <- (app_nil_r absent).
    now rewrite (first_bit_length_skip _ _ _ Habs).
  - intros [cells |]; cbn [get_current_bit_length];
      [apply first_bit_length_nonneg | lia].
  - intros [cells |]; cbn [get_current_bit_length];
      [apply first_bit_length_range | now left].
  - intros cells. unfold on_column_changed. cbv zeta.
    now rewrite changed_loop_first.
Qed.


Example generate_column_names_reg :
  generate_column_names (lit "reg") [8; 8]
  = [lit "reg_b0_8bit"; lit "reg_b1_8bit"].
Proof. vm_compute. reflexivity. Qed.

(** X11. A default name holds [_b] and holds [_bit] only where the base
    name does: [load_file] takes the columns of default names for binary
    columns exactly when the base name holds [_bit] itself, all of them or
    none. *)
Theorem default_names_detected (base_name : str) (bit_assignments : list Z) :
  Forall (fun name => is_binary_column name
                      = contains (lit "_bit") base_name)
    (generate_column_names base_name bit_assignments)
  /\ binary_columns (generate_column_names base_name bit_assignments)
     = if contains (lit "_bit") base_name
       then generate_column_names base_name bit_assignments
       else [].
Proof.
  assert (Hall : Forall (fun name => is_binary_column name
                                     = contains (lit "_bit") base_name)
                   (generate_column_names base_name bit_assignments)).
  { unfold generate_column_names. apply Forall_forall. intros name Hin.
    apply in_map_iff in Hin as ([i bits] & <- & _).
    apply is_binary_column_name. }
  split; [exact Hall |].
  unfold binary_columns. revert Hall.
  generalize (generate_column_names base_name bit_assignments).
  intros names Hall. induction Hall as [| name names Hname _ IH];
    cbn [filter].
  - now destruct (contains _ base_name).
  - rewrite Hname, IH. now destruct (contains _ base_name).
Qed.

Example reg_names_not_detected :
  binary_columns (generate_column_names (lit "reg") [8; 8; 16]) = []
  /\ binary_columns (generate_column_names (lit "reg_bit") [8; 8])
     = [lit "reg_bit_b0_8bit"; lit "reg_bit_b1_8bit"].
Proof. vm_compute. split; reflexivity. Qed.




(** X14. In a column not known as binary, for a token that is not taken
    for binary and is read as a value [v] that is not negative, and widths
    that are not negative and add up to 32: the fields put end to end are
    the first 32 characters of the decoded word.  They hold [v] itself when
    [v] is below 2^32, and [v] shifted right by the number of bits beyond 32
    otherwise: the low bits of a wide value are lost. *)
Theorem hex_row_top_bits (ws : list Z) (token : str) (v : Z) :
  is_likely_binary token = false ->
  int 16 (padded token) = Some v -> 0 <= v ->
  Forall (fun w => 0 <= w) ws -> sum ws = 32 ->
  concat (process_value false 32 ws (Some token))
  = firstn 32 (hex_to_32bit_bin token)
  /\ bits_value (concat (process_value false 32 ws (Some token)))
     = v / 2 ^ (Z.max 32 (len (binary v)) - 32)
  /\ (v < 2 ^ 32 ->
      concat (process_value false 32 ws (Some token))
      = hex_to_32bit_bin token
      /\ bits_value (concat (process_value false 32 ws (Some token))) = v).
Proof.
  intros Hb Hint Hv Hws Hsum.
  destruct (hex_to_32bit_bin_nonneg token v Hint Hv)
    as (_ & _ & Hval & Hlen & _).
  assert (Hcat : concat (process_value false 32 ws (Some token))
                 = firstn 32 (hex_to_32bit_bin token)).
  { rewrite process_value_bin_str, (concat_slice_bits_custom _ ws Hws), Hsum.
    unfold bin_str_of.
    rewrite is_likely_binary_strip, Hb, hex_to_32bit_bin_strip.
    change (Z.to_nat 32) with 32%nat.
    rewrite firstn_app.
    replace (32 - length (hex_to_32bit_bin token))%nat with O
      by (unfold len in Hlen; lia).
    cbn [firstn]. apply app_nil_r. }
  assert (Hshift : bits_value (firstn 32 (hex_to_32bit_bin token))
                   = v / 2 ^ (Z.max 32 (len (binary v)) - 32)).
  { rewrite bits_value_firstn by (unfold len in Hlen; lia).
    rewrite Hval, Hlen. reflexivity. }
  rewrite Hcat. split; [reflexivity | split; [exact Hshift |]].
  intros Hsmall.
  assert (Hnarrow : len (binary v) <= 32) by (apply len_binary_narrow; lia).
  split.
  - apply firstn_all2. unfold len in Hlen, Hnarrow. lia.
  - rewrite Hshift. replace (Z.max 32 (len (binary v)) - 32) with 0 by lia.
    apply Z.div_1_r.
Qed.

Lemma hex_row_top_bits_witness :
  concat (process_value false 32 [16; 16] (Some (lit "1FFFFFFFE")))
  = firstn 32 (hex_to_32bit_bin (lit "1FFFFFFFE"))
  /\ bits_value (concat (process_value false 32 [16; 16]
                          (Some (lit "1FFFFFFFE"))))
     = 8589934590 / 2 ^ (Z.max 32 (len (binary 8589934590)) - 32)
  /\ (8589934590 < 2 ^ 32 ->
      concat (process_value false 32 [16; 16] (Some (lit "1FFFFFFFE")))
      = hex_to_32bit_bin (lit "1FFFFFFFE")
      /\ bits_value (concat (process_value false 32 [16; 16]
                              (Some (lit "1FFFFFFFE")))) = 8589934590).
Proof.
  apply (hex_row_top_bits [16; 16] (lit "1FFFFFFFE") 8589934590).
  - reflexivity.
  - reflexivity.
  - lia.
  - repeat constructor; lia.
  - reflexivity.
Defined.

Example wide_hex_row :
  process_value false 32 [16; 16] (Some (lit "1FFFFFFFE"))
  = [lit "1111111111111111"; lit "1111111111111111"].
Proof. vm_compute. reflexivity. Qed.

(** X15. In a column not known as binary, the word of a present cell is a
    string of 0 and 1 in every case but two: a token taken for binary that
    is written with the prefix 0x, and a token read as a negative value.
    When the word is a string of 0 and 1, so is every field, for widths
    that are not negative. *)
Theorem bin_str_bit_word (expected_bits : Z) (token : str) :
  is_bit_word (bin_str_of false expected_bits (strip token))
  = (if is_likely_binary token
     then negb (startswith_0x (lower (strip token)))
     else match int 16 (padded token) with
          | Some (Zneg _) => false
          | _ => true
          end)
  /\ (forall ws,
        Forall (fun w => 0 <= w) ws ->
        is_bit_word (bin_str_of false expected_bits (strip token)) = true ->
        Forall (fun f => is_bit_word f = true)
          (process_value false expected_bits ws (Some token))).
Proof.
  split; [apply bin_str_of_bit_word |].
  intros ws Hws Hword. rewrite process_value_bin_str.
  rewrite <- (nonneg_widths ws Hws), slice_bits_custom_slicer.
  now apply is_bit_word_slicer.
Qed.



(** ** The length of a decoded word; slicing in sequence *)

Section Sequence.

Lemma len_zfill (s : str) (width : Z) : len (zfill s width) = Z.max width (len s).
Proof.
  unfold zfill. pose proof (len_nonneg s) as Hs.
  destruct (Z.leb_spec width (len s)) as [Hle | Hgt]; [lia |].
  destruct s as [| c r].
  - rewrite length_mul by lia. change (len []) with 0. lia.
  - assert (Hfill : len (mul "0" (width - len (c :: r)) ++ c :: r)
                    = Z.max width (len (c :: r))).
    { rewrite len_app, length_mul by lia. lia. }
    destruct (is_sign c); [| exact Hfill].
    rewrite <- Hfill. unfold len. cbn [length].
    rewrite !length_app. cbn [length]. lia.
Qed.

Lemma bin_digits_len_pos (p : positive) : 0 < len (bin_digits p).
Proof.
  destruct p; cbn [bin_digits]; rewrite ?len_app;
    try pose proof (len_nonneg (bin_digits p));
    change (len [_]) with 1; lia.
Qed.

Lemma bin_digits_len_le (p : positive) (k : Z) :
  0 <= k -> (len (bin_digits p) <= k <-> Zpos p < 2 ^ k).
Proof.
  intros Hk. pose proof (bin_digits_bound p) as Hup.
  pose proof (bin_digits_lower p) as Hlow.
  pose proof (bin_digits_len_pos p) as Hpos.
  split; intros H.
  - assert (2 ^ len (bin_digits p) <= 2 ^ k)
      by (apply Z.pow_le_mono_r; lia).
    lia.
  - destruct (Z.le_gt_cases (len (bin_digits p)) k) as [| Hgt];
      [assumption |].
    assert (2 ^ k <= 2 ^ (len (bin_digits p) - 1))
      by (apply Z.pow_le_mono_r; lia).
    lia.
Qed.

Lemma len_hex_to_32bit_bin (token : str) :
  len (hex_to_32bit_bin token)
  = match int 16 (padded token) with
    | Some (Zpos p) => Z.max 32 (len (bin_digits p))
    | Some (Zneg p) => Z.max 32 (1 + len (bin_digits p))
    | _ => 32
    end.
Proof.
  rewrite hex_to_32bit_bin_padded.
  destruct (int 16 (padded token)) as [[| p | p] |]; try reflexivity.
  - rewrite (bin_tail_nonneg (Zpos p)) by lia. apply len_zfill.
  - rewrite bin_tail_neg, len_zfill. unfold len. cbn [length]. lia.
Qed.






End Sequence.

(** X17. [hex_to_32bit_bin] never returns fewer than 32 characters, whatever
    the token; it returns exactly 32 when [int] raises, and when the value
    read lies strictly between -2^31 and 2^32, and more than 32 for every
    other value. *)
Theorem hex_to_32bit_bin_length (token : str) :
  32 <= len (hex_to_32bit_bin token)
  /\ (len (hex_to_32bit_bin token) = 32
      <-> match int 16 (padded token) with
          | Some v => - 2 ^ 31 < v < 2 ^ 32
          | None => True
          end).
Proof.
  rewrite len_hex_to_32bit_bin.
  destruct (int 16 (padded token)) as [[| p | p] |].
  - split; [lia | split; [lia | reflexivity]].
  - pose proof (bin_digits_len_le p 32 ltac:(lia)) as H.
    split; [lia |]. split; intros H'.
    + assert (len (bin_digits p) <= 32) by lia. apply H in H0. lia.
    + assert (len (bin_digits p) <= 32) by (apply H; lia). lia.
  - pose proof (bin_digits_len_le p 31 ltac:(lia)) as H.
    split; [lia |]. split; intros H'.
    + assert (len (bin_digits p) <= 31) by lia. apply H in H0. lia.
    + assert (len (bin_digits p) <= 31) by (apply H; lia). lia.
  - split; [lia | split; [trivial | reflexivity]].
Qed.


